(** * pivpy: the moving-window reductions Γ1 and Γ2

    A shallow embedding of [pivpy/compute_funcs.py]
    ([Γ1_moving_window_function], [Γ2_moving_window_function]) together with
    the part of NumPy and xarray the two functions call.

    Number model.  A NumPy [float64] is one of: not-a-number, a signed
    infinity, or a finite value.  The special values follow IEEE 754 (what
    [0/0], [x/0], [inf - inf], [0 * inf] and the square root of a negative
    number give, and which of them raise the [divide] or [invalid] floating
    point condition).  Finite values are exact real numbers: rounding,
    overflow, underflow and the sign of zero of binary64 are outside the
    model.  Every zero the two functions divide by is a product of square
    roots, hence a positive zero, so [x / 0] has the sign of [x]. *)

From Stdlib Require Import Reals Lra Lia ZArith Bool String List Permutation.
Import ListNotations.
Open Scope R_scope.

(** ** float64 values *)

Inductive float64 : Type :=
| NaN
| Inf (negative : bool)
| Fin (r : R).

Definition isnan (x : float64) : bool :=
  match x with NaN => true | _ => false end.

Definition Rnegb (r : R) : bool := if Rlt_dec r 0 then true else false.
Definition Rzerob (r : R) : bool := if Req_dec_T r 0 then true else false.

(** Floating point conditions NumPy reports through [np.errstate]. *)
Inductive fpe : Type := FPE_divide | FPE_invalid.

(** A scalar operation: the value it yields and the condition it raises. *)
Record binop : Type := {
  ufunc_name2 : string;
  apply2 : float64 -> float64 -> float64;
  raised2 : float64 -> float64 -> option fpe }.

Record unop : Type := {
  ufunc_name1 : string;
  apply1 : float64 -> float64;
  raised1 : float64 -> option fpe }.

Definition fneg (x : float64) : float64 :=
  match x with
  | NaN => NaN
  | Inf s => Inf (negb s)
  | Fin r => Fin (- r)
  end.

Definition fadd (x y : float64) : float64 :=
  match x, y with
  | NaN, _ | _, NaN => NaN
  | Inf s, Inf t => if Bool.eqb s t then Inf s else NaN
  | Inf s, Fin _ => Inf s
  | Fin _, Inf t => Inf t
  | Fin a, Fin b => Fin (a + b)
  end.

Definition fadd_raised (x y : float64) : option fpe :=
  match x, y with
  | Inf s, Inf t => if Bool.eqb s t then None else Some FPE_invalid
  | _, _ => None
  end.

Definition fsub (x y : float64) : float64 :=
  match x, y with
  | NaN, _ | _, NaN => NaN
  | Inf s, Inf t => if Bool.eqb s t then NaN else Inf s
  | Inf s, Fin _ => Inf s
  | Fin _, Inf t => Inf (negb t)
  | Fin a, Fin b => Fin (a - b)
  end.

Definition fsub_raised (x y : float64) : option fpe :=
  match x, y with
  | Inf s, Inf t => if Bool.eqb s t then Some FPE_invalid else None
  | _, _ => None
  end.

Definition fmul (x y : float64) : float64 :=
  match x, y with
  | NaN, _ | _, NaN => NaN
  | Inf s, Inf t => Inf (xorb s t)
  | Inf s, Fin b => if Rzerob b then NaN else Inf (xorb s (Rnegb b))
  | Fin a, Inf t => if Rzerob a then NaN else Inf (xorb (Rnegb a) t)
  | Fin a, Fin b => Fin (a * b)
  end.

Definition fmul_raised (x y : float64) : option fpe :=
  match x, y with
  | Inf _, Fin b => if Rzerob b then Some FPE_invalid else None
  | Fin a, Inf _ => if Rzerob a then Some FPE_invalid else None
  | _, _ => None
  end.

Definition fdiv (x y : float64) : float64 :=
  match x, y with
  | NaN, _ | _, NaN => NaN
  | Inf _, Inf _ => NaN
  | Inf s, Fin b => Inf (xorb s (Rnegb b))
  | Fin _, Inf _ => Fin 0
  | Fin a, Fin b =>
      if Rzerob b then (if Rzerob a then NaN else Inf (Rnegb a))
      else Fin (a / b)
  end.

Definition fdiv_raised (x y : float64) : option fpe :=
  match x, y with
  | Inf _, Inf _ => Some FPE_invalid
  | Fin a, Fin b =>
      if Rzerob b then (if Rzerob a then Some FPE_invalid else Some FPE_divide)
      else None
  | _, _ => None
  end.

Definition fsqrt (x : float64) : float64 :=
  match x with
  | NaN => NaN
  | Inf s => if s then NaN else Inf false
  | Fin r => if Rnegb r then NaN else Fin (sqrt r)
  end.

Definition fsqrt_raised (x : float64) : option fpe :=
  match x with
  | NaN => None
  | Inf s => if s then Some FPE_invalid else None
  | Fin r => if Rnegb r then Some FPE_invalid else None
  end.

Definition fsquare (x : float64) : float64 := fmul x x.

Definition op_add : binop := Build_binop "add" fadd fadd_raised.
Definition op_subtract : binop := Build_binop "subtract" fsub fsub_raised.
Definition op_multiply : binop := Build_binop "multiply" fmul fmul_raised.
Definition op_divide : binop := Build_binop "divide" fdiv fdiv_raised.
Definition op_sqrt : unop := Build_unop "sqrt" fsqrt fsqrt_raised.
Definition op_square : unop :=
  Build_unop "square" fsquare (fun x => fmul_raised x x).

(** ** Exceptions, warnings and the outcome of a call *)

Inductive exn : Type := IndexError | ValueError.

Inductive warning : Type :=
| RuntimeWarning (condition : fpe) (ufunc : string)
| MeanOfEmptySlice.

Inductive outcome (A : Type) : Type :=
| Returns (a : A) (ws : list warning)
| Raises (e : exn).
Arguments Returns {A} a ws.
Arguments Raises {A} e.

Definition ret {A : Type} (a : A) : outcome A := Returns a [].

(** The warnings [ws] were issued before [m] ran. *)
Definition after_warnings {A : Type} (ws : list warning) (m : outcome A)
    : outcome A :=
  match m with
  | Raises e => Raises e
  | Returns a ws' => Returns a (ws ++ ws')
  end.

Definition bind {A B : Type} (m : outcome A) (f : A -> outcome B) : outcome B :=
  match m with
  | Raises e => Raises e
  | Returns a ws => after_warnings ws (f a)
  end.

Notation "x <- m ;; k" := (bind m (fun x => k))
  (at level 61, m at next level, right associativity).

(** What the caller gets back, the warnings left aside. *)
Definition result_of {A : Type} (m : outcome A) : exn + A :=
  match m with
  | Returns a _ => inr a
  | Raises e => inl e
  end.


(** [np.errstate]: how the [divide] and [invalid] conditions are handled.
    NumPy's default is to warn for both. *)
Record errstate : Type := { divide_ignore : bool; invalid_ignore : bool }.

Definition errstate_default : errstate := Build_errstate false false.
(** [np.errstate(divide='ignore', invalid='ignore')] *)
Definition errstate_ignore : errstate := Build_errstate true true.

Definition is_divide (e : option fpe) : bool :=
  match e with Some FPE_divide => true | _ => false end.
Definition is_invalid (e : option fpe) : bool :=
  match e with Some FPE_invalid => true | _ => false end.

(** One warning per condition and ufunc call, however many cells raise it. *)
Definition fp_warnings (st : errstate) (name : string)
    (raised : list (option fpe)) : list warning :=
  (if negb (divide_ignore st) && existsb is_divide raised
   then [RuntimeWarning FPE_divide name] else [])
  ++ (if negb (invalid_ignore st) && existsb is_invalid raised
      then [RuntimeWarning FPE_invalid name] else []).

(** ** NumPy arrays

    A two-dimensional array is the list of its rows.  NumPy arrays are
    rectangular: [has_shape r c a] says so. *)

Definition ndarray : Type := list (list float64).

Definition has_shape (r c : nat) (a : ndarray) : Prop :=
  length a = r /\ Forall (fun row => length row = c) a.

(** Python indexing along one axis: a negative index counts from the end. *)
Definition norm_index (i : Z) (len : nat) : option nat :=
  if ((0 <=? i) && (i <? Z.of_nat len))%Z then Some (Z.to_nat i)
  else if ((- Z.of_nat len <=? i) && (i <? 0))%Z
       then Some (Z.to_nat (i + Z.of_nat len))
       else None.

(** [a[i, j]] *)
Definition getitem (a : ndarray) (i j : Z) : outcome float64 :=
  match norm_index i (length a) with
  | None => Raises IndexError
  | Some r =>
      match nth_error a r with
      | None => Raises IndexError
      | Some row =>
          match norm_index j (length row) with
          | None => Raises IndexError
          | Some c =>
              match nth_error row c with
              | None => Raises IndexError
              | Some x => ret x
              end
          end
      end
  end.

Fixpoint zip_with {A B C : Type} (f : A -> B -> C)
    (la : list A) (lb : list B) : list C :=
  match la, lb with
  | a :: la', b :: lb' => f a b :: zip_with f la' lb'
  | _, _ => []
  end.

(** Broadcasting along one axis: equal lengths pair up, a length of one is
    stretched, anything else does not broadcast. *)
Definition broadcast {A B C : Type} (f : A -> B -> C)
    (la : list A) (lb : list B) : option (list C) :=
  if Nat.eqb (length la) (length lb) then Some (zip_with f la lb)
  else match la, lb with
       | [a], _ => Some (map (f a) lb)
       | _, [b] => Some (map (fun a => f a b) la)
       | _, _ => None
       end.

Fixpoint sequence {A : Type} (l : list (option A)) : option (list A) :=
  match l with
  | [] => Some []
  | None :: _ => None
  | Some a :: l' =>
      match sequence l' with
      | None => None
      | Some r => Some (a :: r)
      end
  end.

Definition broadcast2d {A B C : Type} (f : A -> B -> C)
    (a : list (list A)) (b : list (list B)) : option (list (list C)) :=
  match broadcast (broadcast f) a b with
  | None => None
  | Some rows => sequence rows
  end.

(** A binary ufunc on two arrays, under the error state [st]. *)
Definition ufunc2 (st : errstate) (op : binop) (a b : ndarray)
    : outcome ndarray :=
  match broadcast2d (fun x y => (apply2 op x y, raised2 op x y)) a b with
  | None => Raises ValueError
  | Some cells =>
      Returns (map (map fst) cells)
              (fp_warnings st (ufunc_name2 op) (concat (map (map snd) cells)))
  end.

(** A binary ufunc on an array and a Python float. *)
Definition ufunc2_scalar (st : errstate) (op : binop) (a : ndarray)
    (s : float64) : outcome ndarray :=
  Returns (map (map (fun x => apply2 op x s)) a)
          (fp_warnings st (ufunc_name2 op)
             (concat (map (map (fun x => raised2 op x s)) a))).

Definition ufunc1 (st : errstate) (op : unop) (a : ndarray)
    : outcome ndarray :=
  Returns (map (map (apply1 op)) a)
          (fp_warnings st (ufunc_name1 op)
             (concat (map (map (raised1 op)) a))).

Definition np_add st := ufunc2 st op_add.
Definition np_subtract st := ufunc2 st op_subtract.
Definition np_subtract_scalar st := ufunc2_scalar st op_subtract.
Definition np_multiply st := ufunc2 st op_multiply.
Definition np_divide st := ufunc2 st op_divide.
Definition np_sqrt st := ufunc1 st op_sqrt.
Definition np_square st := ufunc1 st op_square.

(** [np.sum] over all cells, left to right from zero, with the conditions the
    additions raise. *)
Fixpoint sum_from (acc : float64) (l : list float64)
    : float64 * list (option fpe) :=
  match l with
  | [] => (acc, [])
  | x :: l' =>
      let (tot, raised) := sum_from (fadd acc x) l' in
      (tot, fadd_raised acc x :: raised)
  end.

Definition replace_nan (x : float64) : float64 :=
  if isnan x then Fin 0 else x.

Definition count_not_nan (l : list float64) : nat :=
  length (filter (fun x => negb (isnan x)) l).

(** [np.nanmean(a)]: the not-a-number cells are replaced by zero and summed
    with the rest, the total is divided by the number of the other cells.  The
    division is done under NumPy's own [errstate]; when no cell is left NumPy
    warns "Mean of empty slice" through the [warnings] module, which
    [np.errstate] does not govern. *)
Definition np_nanmean (st : errstate) (a : ndarray) : outcome float64 :=
  let cells := concat a in
  let cnt := count_not_nan cells in
  let (tot, raised) := sum_from (Fin 0) (map replace_nan cells) in
  Returns (fdiv tot (Fin (INR cnt)))
          (fp_warnings st "add" raised
           ++ (if Nat.eqb cnt 0 then [MeanOfEmptySlice] else [])).

(** [xr.DataArray(x).fillna(value)] on a zero-dimensional array. *)
Definition fillna (x value : float64) : float64 :=
  if isnan x then value else x.

(** ** The window

    [fWin] is an [xr.Dataset] with the four variables the functions read. *)

Record Dataset : Type := {
  xCoordinates : ndarray;
  yCoordinates : ndarray;
  u : ndarray;
  v : ndarray }.

(** ** The two reductions (compute_funcs.py) *)

Definition Γ1_moving_window_function (fWin : Dataset) (n : Z)
    : outcome float64 :=
  xP <- getitem (xCoordinates fWin) n n ;;
  PMx <- np_subtract_scalar errstate_default (xCoordinates fWin) xP ;;
  yP <- getitem (yCoordinates fWin) n n ;;
  PMy <- np_subtract_scalar errstate_default (yCoordinates fWin) yP ;;
  let u := u fWin in
  let v := v fWin in
  (* with np.errstate(divide='ignore', invalid='ignore'): *)
  let st := errstate_ignore in
  PMx_v <- np_multiply st PMx v ;;
  PMy_u <- np_multiply st PMy u ;;
  cross <- np_subtract st PMx_v PMy_u ;;
  PMx2 <- np_square st PMx ;;
  PMy2 <- np_square st PMy ;;
  PM2 <- np_add st PMx2 PMy2 ;;
  PM <- np_sqrt st PM2 ;;
  u2 <- np_square st u ;;
  v2 <- np_square st v ;;
  U2 <- np_add st u2 v2 ;;
  U <- np_sqrt st U2 ;;
  PM_U <- np_multiply st PM U ;;
  sinΘM <- np_divide st cross PM_U ;;
  Γ1 <- np_nanmean st sinΘM ;;
  ret (fillna Γ1 (Fin 0)).

Definition Γ2_moving_window_function (fWin : Dataset) (n : Z)
    : outcome float64 :=
  xP <- getitem (xCoordinates fWin) n n ;;
  PMx <- np_subtract_scalar errstate_default (xCoordinates fWin) xP ;;
  yP <- getitem (yCoordinates fWin) n n ;;
  PMy <- np_subtract_scalar errstate_default (yCoordinates fWin) yP ;;
  let u := u fWin in
  let v := v fWin in
  uP_tilde <- np_nanmean errstate_default u ;;
  uDif <- np_subtract_scalar errstate_default u uP_tilde ;;
  vP_tilde <- np_nanmean errstate_default v ;;
  vDif <- np_subtract_scalar errstate_default v vP_tilde ;;
  (* with np.errstate(divide='ignore', invalid='ignore'): *)
  let st := errstate_ignore in
  PMx_v <- np_multiply st PMx vDif ;;
  PMy_u <- np_multiply st PMy uDif ;;
  cross <- np_subtract st PMx_v PMy_u ;;
  PMx2 <- np_square st PMx ;;
  PMy2 <- np_square st PMy ;;
  PM2 <- np_add st PMx2 PMy2 ;;
  PM <- np_sqrt st PM2 ;;
  u2 <- np_square st uDif ;;
  v2 <- np_square st vDif ;;
  U2 <- np_add st u2 v2 ;;
  U <- np_sqrt st U2 ;;
  PM_U <- np_multiply st PM U ;;
  sinΘM <- np_divide st cross PM_U ;;
  Γ2 <- np_nanmean st sinΘM ;;
  ret (fillna Γ2 (Fin 0)).

(** ** Arrays of a known shape

    An array of shape [r x c] is the table of its cells; every ufunc maps
    tables to tables, cell by cell. *)

Definition tab {A : Type} (r c : nat) (f : nat -> nat -> A) : list (list A) :=
  map (fun i => map (f i) (seq 0 c)) (seq 0 r).

Definition cell (a : ndarray) (i j : nat) : float64 :=
  nth j (nth i a []) NaN.

Definition window_shape (r c : nat) (fWin : Dataset) : Prop :=
  has_shape r c (xCoordinates fWin) /\ has_shape r c (yCoordinates fWin) /\
  has_shape r c (u fWin) /\ has_shape r c (v fWin).

(** ** What the code computes in one cell

    [sinΘM] is the cell of the array the one-liner hands to [np.nanmean]:
    [xP], [yP] are the coordinates read at [[n,n]], [x], [y] the coordinates
    and [u], [v] the velocity of the cell. *)

Definition sinΘM (xP yP x y u v : float64) : float64 :=
  let PMx := fsub x xP in
  let PMy := fsub y yP in
  fdiv (fsub (fmul PMx v) (fmul PMy u))
       (fmul (fsqrt (fadd (fsquare PMx) (fsquare PMy)))
             (fsqrt (fadd (fsquare u) (fsquare v)))).

(** The value [np.nanmean] returns on the cells [l]. *)
Definition nanmean_value (l : list float64) : float64 :=
  fdiv (fst (sum_from (Fin 0) (map replace_nan l))) (Fin (INR (count_not_nan l))).

Definition nanmean_warnings (st : errstate) (l : list float64) : list warning :=
  fp_warnings st "add" (snd (sum_from (Fin 0) (map replace_nan l)))
  ++ (if Nat.eqb (count_not_nan l) 0 then [MeanOfEmptySlice] else []).

(** The cells of the array [Γ1_moving_window_function] averages, and those of
    [Γ2_moving_window_function]. *)
Definition Γ1_cells (r c : nat) (fWin : Dataset) (i j : nat) : list float64 :=
  let xP := cell (xCoordinates fWin) i j in
  let yP := cell (yCoordinates fWin) i j in
  concat (tab r c (fun i' j' =>
    sinΘM xP yP (cell (xCoordinates fWin) i' j') (cell (yCoordinates fWin) i' j')
          (cell (u fWin) i' j') (cell (v fWin) i' j'))).

Definition Γ2_cells (r c : nat) (fWin : Dataset) (i j : nat) : list float64 :=
  let xP := cell (xCoordinates fWin) i j in
  let yP := cell (yCoordinates fWin) i j in
  let uP_tilde := nanmean_value (concat (u fWin)) in
  let vP_tilde := nanmean_value (concat (v fWin)) in
  concat (tab r c (fun i' j' =>
    sinΘM xP yP (cell (xCoordinates fWin) i' j') (cell (yCoordinates fWin) i' j')
          (fsub (cell (u fWin) i' j') uP_tilde)
          (fsub (cell (v fWin) i' j') vP_tilde))).

(** The warnings raised by the lines that run outside the [np.errstate]
    block. *)
Definition PM_warnings (fWin : Dataset) (i j : nat) : list warning :=
  let xP := cell (xCoordinates fWin) i j in
  let yP := cell (yCoordinates fWin) i j in
  fp_warnings errstate_default "subtract"
    (concat (map (map (fun x => fsub_raised x xP)) (xCoordinates fWin)))
  ++ fp_warnings errstate_default "subtract"
       (concat (map (map (fun y => fsub_raised y yP)) (yCoordinates fWin))).

Definition Dif_warnings (fWin : Dataset) : list warning :=
  let uP_tilde := nanmean_value (concat (u fWin)) in
  let vP_tilde := nanmean_value (concat (v fWin)) in
  nanmean_warnings errstate_default (concat (u fWin))
  ++ fp_warnings errstate_default "subtract"
       (concat (map (map (fun x => fsub_raised x uP_tilde)) (u fWin)))
  ++ nanmean_warnings errstate_default (concat (v fWin))
  ++ fp_warnings errstate_default "subtract"
       (concat (map (map (fun x => fsub_raised x vP_tilde)) (v fWin))).


(** ** The reductions as the specification words them

    Section 4.2 and 4.3 of the specification, over real numbers: a cell is
    undefined when one of its inputs is missing or when [|PM|] or [|U|] is
    zero, and Γ is the mean of the defined cells. *)

Module Spec.

Definition norm (a b : R) : R := sqrt (a * a + b * b).

(** [(PM x U)_z / (|PM| * |U|)] *)
Definition sinθ (xP yP xM yM uM vM : R) : R :=
  let PMx := xM - xP in
  let PMy := yM - yP in
  (PMx * vM - PMy * uM) / (norm PMx PMy * norm uM vM).

(** A missing (not-a-number) input is [None]. *)
Definition known (x : float64) : option R :=
  match x with Fin r => Some r | _ => None end.

Definition is_zero (r : R) : bool := if Req_dec_T r 0 then true else false.

(** The value of the cell [M], when it is defined. *)
Definition sinθ_cell (xP yP xM yM uM vM : float64) : option R :=
  match known xP, known yP, known xM, known yM, known uM, known vM with
  | Some xP, Some yP, Some xM, Some yM, Some uM, Some vM =>
      if is_zero (norm (xM - xP) (yM - yP)) || is_zero (norm uM vM)
      then None
      else Some (sinθ xP yP xM yM uM vM)
  | _, _, _, _, _, _ => None
  end.

Fixpoint defined (l : list (option R)) : list R :=
  match l with
  | [] => []
  | Some r :: l' => r :: defined l'
  | None :: l' => defined l'
  end.

Definition total (l : list R) : R := fold_right Rplus 0 l.

Definition mean (l : list R) : R := total l / INR (length l).

(** Steps 5 and 6: the mean over the defined cells, 0.0 when there is
    none. *)
Definition Γ (cells : list (option R)) : R :=
  match defined cells with
  | [] => 0
  | vals => mean vals
  end.



(** The cells of the window, row by row. *)
Definition cells_Γ1 (r c : nat) (fWin : Dataset) (i j : nat)
    : list (option R) :=
  concat (tab r c (fun i' j' =>
    sinθ_cell (cell (xCoordinates fWin) i j) (cell (yCoordinates fWin) i j)
              (cell (xCoordinates fWin) i' j') (cell (yCoordinates fWin) i' j')
              (cell (u fWin) i' j') (cell (v fWin) i' j'))).


End Spec.

(** A grid entry of the data model: a finite number, or not-a-number for a
    masked vector. *)
Definition finite_or_nan (x : float64) : Prop :=
  match x with Inf _ => False | _ => True end.

Definition finite (x : float64) : Prop :=
  match x with Fin _ => True | _ => False end.

Definition all_cells (P : float64 -> Prop) (a : ndarray) : Prop :=
  Forall (Forall P) a.

Definition window_cells (P : float64 -> Prop) (fWin : Dataset) : Prop :=
  all_cells P (xCoordinates fWin) /\ all_cells P (yCoordinates fWin) /\
  all_cells P (u fWin) /\ all_cells P (v fWin).

Definition of_option (o : option R) : float64 :=
  match o with Some r => Fin r | None => NaN end.

(** ** Example windows *)

(** A 3x3 window on the unit grid centred at (0,0), the velocity in
    counterclockwise solid-body rotation: [u = -y], [v = x]. *)
Definition rotation_window : Dataset :=
  {| xCoordinates := [[Fin (-1); Fin 0; Fin 1];
                      [Fin (-1); Fin 0; Fin 1];
                      [Fin (-1); Fin 0; Fin 1]];
     yCoordinates := [[Fin (-1); Fin (-1); Fin (-1)];
                      [Fin 0; Fin 0; Fin 0];
                      [Fin 1; Fin 1; Fin 1]];
     u := [[Fin 1; Fin 1; Fin 1];
           [Fin 0; Fin 0; Fin 0];
           [Fin (-1); Fin (-1); Fin (-1)]];
     v := [[Fin (-1); Fin 0; Fin 1];
           [Fin (-1); Fin 0; Fin 1];
           [Fin (-1); Fin 0; Fin 1]] |}.

(** The same field stored with [x] along the first axis and [y] along the
    second. *)
Definition rotation_window_xy : Dataset :=
  {| xCoordinates := [[Fin (-1); Fin (-1); Fin (-1)];
                      [Fin 0; Fin 0; Fin 0];
                      [Fin 1; Fin 1; Fin 1]];
     yCoordinates := [[Fin (-1); Fin 0; Fin 1];
                      [Fin (-1); Fin 0; Fin 1];
                      [Fin (-1); Fin 0; Fin 1]];
     u := [[Fin 1; Fin 0; Fin (-1)];
           [Fin 1; Fin 0; Fin (-1)];
           [Fin 1; Fin 0; Fin (-1)]];
     v := [[Fin (-1); Fin (-1); Fin (-1)];
           [Fin 0; Fin 0; Fin 0];
           [Fin 1; Fin 1; Fin 1]] |}.

(** The same grid with the fluid at rest. *)
Definition still_window : Dataset :=
  {| xCoordinates := xCoordinates rotation_window;
     yCoordinates := yCoordinates rotation_window;
     u := [[Fin 0; Fin 0; Fin 0]; [Fin 0; Fin 0; Fin 0]; [Fin 0; Fin 0; Fin 0]];
     v := [[Fin 0; Fin 0; Fin 0]; [Fin 0; Fin 0; Fin 0]; [Fin 0; Fin 0; Fin 0]] |}.

(** A window of a single cell. *)
Definition single_cell_window : Dataset :=
  {| xCoordinates := [[Fin 0]]; yCoordinates := [[Fin 0]];
     u := [[Fin 1]]; v := [[Fin 0]] |}.

(** ** Zero denominators *)

(** The denominator [|PM| * |U|] of a cell, as the code computes it. *)
Definition PM_U (xP yP x y u v : float64) : float64 :=
  fmul (fsqrt (fadd (fsquare (fsub x xP)) (fsquare (fsub y yP))))
       (fsqrt (fadd (fsquare u) (fsquare v))).

Definition cross_z (xP yP x y u v : float64) : float64 :=
  fsub (fmul (fsub x xP) v) (fmul (fsub y yP) u).

(** The window with every velocity reversed. *)
Definition reverse_velocity (fWin : Dataset) : Dataset :=
  {| xCoordinates := xCoordinates fWin;
     yCoordinates := yCoordinates fWin;
     u := map (map fneg) (u fWin);
     v := map (map fneg) (v fWin) |}.

Definition map_result (f : float64 -> float64) (res : exn + float64)
    : exn + float64 :=
  match res with
  | inl e => inl e
  | inr g => inr (f g)
  end.

(** ** A uniform velocity added to the window *)



(** ** What the functions check *)




(** ** Further properties of the reductions *)



(** A window whose centre is masked. *)
Definition masked_centre_window : Dataset :=
  {| xCoordinates := [[NaN; Fin 1; Fin 2]];
     yCoordinates := [[Fin 0; Fin 0; Fin 0]];
     u := [[Fin 0; Fin 0; Fin 1]];
     v := [[Fin 1; Fin 1; Fin 0]] |}.









(** NumPy's rule for two lengths along one axis. *)
Definition broadcastable (n m : nat) : Prop := n = m \/ n = 1%nat \/ m = 1%nat.

(** Coordinates of shape 2x2 with velocities of shape 3x2: the shapes do not
    broadcast. *)
Definition mismatched_window : Dataset :=
  {| xCoordinates := [[Fin 0; Fin 1]; [Fin 0; Fin 1]];
     yCoordinates := [[Fin 0; Fin 0]; [Fin 1; Fin 1]];
     u := [[Fin 1; Fin 1]; [Fin 1; Fin 1]; [Fin 1; Fin 1]];
     v := [[Fin 0; Fin 0]; [Fin 0; Fin 0]; [Fin 0; Fin 0]] |}.

(** Coordinates of a single cell with velocities of shape 2x2. *)
Definition stretched_window : Dataset :=
  {| xCoordinates := [[Fin 5]];
     yCoordinates := [[Fin 7]];
     u := [[Fin 1; Fin 2]; [Fin 3; Fin 4]];
     v := [[Fin 0; Fin 1]; [Fin 0; Fin 1]] |}.

(** ** graphics.py: the units of [quiver]

    [quiver] starts by reading its labels off [units], a list such as
    [['m', 'm', 'mm/s', 'mm/s']], before it touches any figure:
    [lUnits = units[0]], [velUnits = units[2]],
    [tUnits = velUnits.split('/')[1]], and three empty strings when [units]
    is [None]. *)

(** [s.split(sep)] for a separator of one character. *)
Fixpoint split_on (sep : Ascii.ascii) (s : string) : list string :=
  match s with
  | EmptyString => [EmptyString]
  | String ch s' =>
      if Ascii.eqb ch sep then EmptyString :: split_on sep s'
      else match split_on sep s' with
           | piece :: pieces => String ch piece :: pieces
           | [] => [String ch EmptyString]
           end
  end.

(** [l[k]] on a Python list, for an index that is not negative. *)
Definition list_getitem {A : Type} (l : list A) (k : nat) : outcome A :=
  match nth_error l k with
  | Some x => ret x
  | None => Raises IndexError
  end.

Definition slash : Ascii.ascii := Ascii.Ascii true true true true false true false false.

Definition quiver_units (units : option (list string))
    : outcome (string * string * string) :=
  match units with
  | Some units =>
      lUnits <- list_getitem units 0 ;;
      velUnits <- list_getitem units 2 ;;
      tUnits <- list_getitem (split_on slash velUnits) 1 ;;
      ret (lUnits, velUnits, tUnits)
  | None => ret (EmptyString, EmptyString, EmptyString)
  end.

(** Whether the character [ch] occurs in [s]. *)
Fixpoint has_char (ch : Ascii.ascii) (s : string) : bool :=
  match s with
  | EmptyString => false
  | String ch' s' => Ascii.eqb ch' ch || has_char ch s'
  end.

(** ** Changes of frame *)

(** The window seen in a mirror, [x] to [-x] and [u] to [-u]. *)
Definition mirror (fWin : Dataset) : Dataset :=
  {| xCoordinates := map (map fneg) (xCoordinates fWin);
     yCoordinates := yCoordinates fWin;
     u := map (map fneg) (u fWin);
     v := v fWin |}.

(** The window with the axes turned by a quarter turn: the point [(x, y)]
    becomes [(-y, x)] and the velocity [(u, v)] becomes [(-v, u)]. *)
Definition quarter_turn (fWin : Dataset) : Dataset :=
  {| xCoordinates := map (map fneg) (yCoordinates fWin);
     yCoordinates := xCoordinates fWin;
     u := map (map fneg) (v fWin);
     v := u fWin |}.



(** * Proofs *)

Section Tables.
Context {A B C : Type}.

Lemma list_as_table (d : A) (l : list A) :
  l = map (fun i => nth i l d) (seq 0 (length l)).
Proof.
  induction l as [|x l IH]; simpl; [reflexivity|].
  f_equal. rewrite <- seq_shift, map_map. exact IH.
Qed.

Lemma zip_with_map (f : A -> B -> C) {I : Type} (g : I -> A) (h : I -> B)
    (l : list I) :
  zip_with f (map g l) (map h l) = map (fun x => f (g x) (h x)) l.
Proof. induction l as [|x l IH]; simpl; [reflexivity | now rewrite IH]. Qed.

Lemma broadcast_same_length (f : A -> B -> C) (la : list A) (lb : list B) :
  length la = length lb -> broadcast f la lb = Some (zip_with f la lb).
Proof. intros H. unfold broadcast. now rewrite H, Nat.eqb_refl. Qed.

Lemma sequence_map_Some {I : Type} (g : I -> A) (l : list I) :
  sequence (map (fun x => Some (g x)) l) = Some (map g l).
Proof. induction l as [|x l IH]; simpl; [reflexivity | now rewrite IH]. Qed.

End Tables.

Section TableMaps.
Context {A B C : Type}.

Lemma map_map_tab (k : A -> B) (r c : nat) (f : nat -> nat -> A) :
  map (map k) (tab r c f) = tab r c (fun i j => k (f i j)).
Proof.
  unfold tab. rewrite map_map. apply map_ext. intros i. now rewrite map_map.
Qed.

Lemma broadcast2d_tab (f : A -> B -> C) (r c : nat)
    (g : nat -> nat -> A) (h : nat -> nat -> B) :
  broadcast2d f (tab r c g) (tab r c h)
  = Some (tab r c (fun i j => f (g i j) (h i j))).
Proof.
  unfold broadcast2d, tab.
  rewrite broadcast_same_length by now rewrite !length_map.
  rewrite zip_with_map.
  rewrite (map_ext _ (fun i => Some (map (fun j => f (g i j) (h i j)) (seq 0 c)))).
  - apply sequence_map_Some.
  - intros i. rewrite broadcast_same_length by now rewrite !length_map.
    now rewrite zip_with_map.
Qed.

Lemma tab_ext (r c : nat) (f g : nat -> nat -> A) :
  (forall i j, (i < r)%nat -> (j < c)%nat -> f i j = g i j) ->
  tab r c f = tab r c g.
Proof.
  intros H. unfold tab. apply map_ext_in. intros i Hi.
  apply map_ext_in. intros j Hj.
  apply in_seq in Hi, Hj. apply H; lia.
Qed.

Lemma In_concat_tab (r c : nat) (f : nat -> nat -> A) (x : A) :
  In x (concat (tab r c f)) <->
  exists i j, (i < r)%nat /\ (j < c)%nat /\ x = f i j.
Proof.
  unfold tab. rewrite in_concat. split.
  - intros (row & Hrow & Hx).
    apply in_map_iff in Hrow as (i & <- & Hi).
    apply in_map_iff in Hx as (j & <- & Hj).
    apply in_seq in Hi, Hj. exists i, j. repeat split; lia.
  - intros (i & j & Hi & Hj & ->).
    exists (map (f i) (seq 0 c)). split.
    + apply in_map_iff. exists i. split; [reflexivity | apply in_seq; lia].
    + apply in_map_iff. exists j. split; [reflexivity | apply in_seq; lia].
Qed.

Lemma concat_map_tab (k : A -> B) (r c : nat) (f : nat -> nat -> A) :
  concat (tab r c (fun i j => k (f i j))) = map k (concat (tab r c f)).
Proof. now rewrite <- map_map_tab, concat_map. Qed.
End TableMaps.

Lemma has_shape_tab (r c : nat) (a : ndarray) :
  has_shape r c a -> a = tab r c (cell a).
Proof.
  intros [Hr Hc]. unfold tab, cell. subst r.
  rewrite (list_as_table [] a) at 1.
  apply map_ext_in. intros i Hi. apply in_seq in Hi.
  assert (Hlen : length (nth i a []) = c).
  { rewrite Forall_forall in Hc. apply Hc, nth_In. lia. }
  rewrite <- Hlen. apply list_as_table.
Qed.

Lemma has_shape_tab_intro (r c : nat) (f : nat -> nat -> float64) :
  has_shape r c (tab r c f).
Proof.
  unfold has_shape, tab. split.
  - now rewrite length_map, length_seq.
  - apply Forall_forall. intros row Hrow.
    apply in_map_iff in Hrow as (i & <- & _).
    now rewrite length_map, length_seq.
Qed.

Lemma cell_tab (r c : nat) (f : nat -> nat -> float64) (i j : nat) :
  (i < r)%nat -> (j < c)%nat -> cell (tab r c f) i j = f i j.
Proof.
  intros Hi Hj. unfold cell, tab.
  rewrite (nth_indep _ [] (map (f 0%nat) (seq 0 c)))
    by now rewrite length_map, length_seq.
  change (map (f 0%nat) (seq 0 c)) with ((fun i => map (f i) (seq 0 c)) 0%nat).
  rewrite map_nth, seq_nth by assumption. simpl.
  rewrite (nth_indep _ NaN (f i 0%nat)) by now rewrite length_map, length_seq.
  rewrite map_nth, seq_nth by assumption. reflexivity.
Qed.

(** *** Indexing *)

Lemma norm_index_lt (i : Z) (len k : nat) :
  norm_index i len = Some k -> (k < len)%nat.
Proof.
  unfold norm_index.
  destruct ((0 <=? i) && (i <? Z.of_nat len))%Z eqn:E1.
  - intros [= <-]. apply andb_prop in E1 as [H1 H2].
    apply Z.leb_le in H1. apply Z.ltb_lt in H2. lia.
  - destruct ((- Z.of_nat len <=? i) && (i <? 0))%Z eqn:E2; [|discriminate].
    intros [= <-]. apply andb_prop in E2 as [H1 H2].
    apply Z.leb_le in H1. apply Z.ltb_lt in H2. lia.
Qed.



Lemma getitem_tab (r c : nat) (f : nat -> nat -> float64) (n : Z) (i j : nat) :
  norm_index n r = Some i -> norm_index n c = Some j ->
  getitem (tab r c f) n n = ret (f i j).
Proof.
  intros Hi Hj. unfold getitem.
  assert (Hlen : length (tab r c f) = r)
    by (unfold tab; now rewrite length_map, length_seq).
  rewrite Hlen, Hi.
  pose proof (norm_index_lt _ _ _ Hi) as Hir.
  pose proof (norm_index_lt _ _ _ Hj) as Hjc.
  assert (Hrow : nth_error (tab r c f) i = Some (map (f i) (seq 0 c))).
  { unfold tab. rewrite nth_error_map, nth_error_nth' with (d := 0%nat)
      by now rewrite length_seq.
    simpl. now rewrite seq_nth. }
  rewrite Hrow, length_map, length_seq, Hj.
  rewrite nth_error_map, nth_error_nth' with (d := 0%nat) by now rewrite length_seq.
  simpl. now rewrite seq_nth.
Qed.

Lemma getitem_shape_error (r c : nat) (a : ndarray) (n : Z) :
  has_shape r c a ->
  norm_index n r = None \/ norm_index n c = None ->
  getitem a n n = Raises IndexError.
Proof.
  intros [Hr Hc] H. unfold getitem. rewrite Hr.
  destruct (norm_index n r) as [i|] eqn:Ei; [|reflexivity].
  destruct H as [H|H]; [discriminate|].
  destruct (nth_error a i) as [row|] eqn:Erow; [|reflexivity].
  rewrite Forall_forall in Hc.
  rewrite (Hc row) by (eapply nth_error_In; eassumption).
  now rewrite H.
Qed.

(** *** Ufuncs on tables *)

Lemma fp_warnings_ignore (name : string) (raised : list (option fpe)) :
  fp_warnings errstate_ignore name raised = [].
Proof. reflexivity. Qed.

Lemma ufunc2_tab (st : errstate) (op : binop) (r c : nat)
    (g h : nat -> nat -> float64) :
  ufunc2 st op (tab r c g) (tab r c h)
  = Returns (tab r c (fun i j => apply2 op (g i j) (h i j)))
            (fp_warnings st (ufunc_name2 op)
               (concat (tab r c (fun i j => raised2 op (g i j) (h i j))))).
Proof.
  unfold ufunc2. rewrite broadcast2d_tab. now rewrite !map_map_tab.
Qed.

Lemma ufunc2_scalar_tab (st : errstate) (op : binop) (r c : nat)
    (g : nat -> nat -> float64) (s : float64) :
  ufunc2_scalar st op (tab r c g) s
  = Returns (tab r c (fun i j => apply2 op (g i j) s))
            (fp_warnings st (ufunc_name2 op)
               (concat (tab r c (fun i j => raised2 op (g i j) s)))).
Proof. unfold ufunc2_scalar. now rewrite !map_map_tab. Qed.

Lemma ufunc1_tab (st : errstate) (op : unop) (r c : nat)
    (g : nat -> nat -> float64) :
  ufunc1 st op (tab r c g)
  = Returns (tab r c (fun i j => apply1 op (g i j)))
            (fp_warnings st (ufunc_name1 op)
               (concat (tab r c (fun i j => raised1 op (g i j))))).
Proof. unfold ufunc1. now rewrite !map_map_tab. Qed.

Lemma np_nanmean_eq (st : errstate) (a : ndarray) :
  np_nanmean st a
  = Returns (nanmean_value (concat a)) (nanmean_warnings st (concat a)).
Proof.
  unfold np_nanmean, nanmean_value, nanmean_warnings.
  now destruct (sum_from (Fin 0) (map replace_nan (concat a))).
Qed.

Lemma bind_Returns {A B : Type} (a : A) (ws : list warning)
    (f : A -> outcome B) :
  bind (Returns a ws) f = after_warnings ws (f a).
Proof. reflexivity. Qed.

Lemma after_warnings_Returns {A : Type} (ws ws' : list warning) (a : A) :
  after_warnings ws (Returns a ws') = Returns a (ws ++ ws').
Proof. reflexivity. Qed.

(** One statement of the function body: evaluate the call at the head. *)
Ltac run_step :=
  first [ rewrite (getitem_tab _ _ _ _ _ _) by eassumption; unfold ret
        | rewrite ufunc2_scalar_tab
        | rewrite ufunc2_tab
        | rewrite ufunc1_tab
        | rewrite np_nanmean_eq
        | rewrite bind_Returns; cbv beta ].

(** Read every array of a known shape as the table of its cells. *)
Ltac as_tables :=
  repeat match goal with
  | H : has_shape ?r ?c ?a |- _ =>
      let E := fresh "E" in
      let f := fresh "f" in
      pose proof (has_shape_tab r c a H) as E;
      clear H; set (f := cell a) in *; rewrite E; clear E
  end.

#[local] Opaque getitem ufunc2 ufunc2_scalar ufunc1 np_nanmean.

(** The reduction, once the shapes agree and [[n,n]] is a cell. *)
Lemma Γ1_on_window (r c : nat) (fWin : Dataset) (n : Z) (i j : nat) :
  window_shape r c fWin ->
  norm_index n r = Some i -> norm_index n c = Some j ->
  Γ1_moving_window_function fWin n
  = Returns (fillna (nanmean_value (Γ1_cells r c fWin i j)) (Fin 0))
            (PM_warnings fWin i j
             ++ nanmean_warnings errstate_ignore (Γ1_cells r c fWin i j)).
Proof.
  intros (Hx & Hy & Hu & Hv) Hi Hj.
  unfold Γ1_moving_window_function, Γ1_cells, PM_warnings.
  destruct fWin as [x y u0 v0]. cbn [xCoordinates yCoordinates u v] in *.
  as_tables.
  unfold np_subtract_scalar, np_multiply, np_subtract, np_square, np_add,
    np_sqrt, np_divide.
  repeat run_step.
  unfold ret. rewrite !after_warnings_Returns.
  rewrite !fp_warnings_ignore. cbn [app].
  rewrite !map_map_tab, ?app_nil_r, <- ?app_assoc.
  reflexivity.
Qed.

Lemma Γ2_on_window (r c : nat) (fWin : Dataset) (n : Z) (i j : nat) :
  window_shape r c fWin ->
  norm_index n r = Some i -> norm_index n c = Some j ->
  Γ2_moving_window_function fWin n
  = Returns (fillna (nanmean_value (Γ2_cells r c fWin i j)) (Fin 0))
            (PM_warnings fWin i j ++ Dif_warnings fWin
             ++ nanmean_warnings errstate_ignore (Γ2_cells r c fWin i j)).
Proof.
  intros (Hx & Hy & Hu & Hv) Hi Hj.
  unfold Γ2_moving_window_function, Γ2_cells, PM_warnings, Dif_warnings.
  destruct fWin as [x y u0 v0]. cbn [xCoordinates yCoordinates u v] in *.
  as_tables.
  unfold np_subtract_scalar, np_multiply, np_subtract, np_square, np_add,
    np_sqrt, np_divide.
  repeat run_step.
  unfold ret. rewrite !after_warnings_Returns.
  rewrite !fp_warnings_ignore. cbn [app].
  rewrite !map_map_tab, ?app_nil_r, <- ?app_assoc.
  reflexivity.
Qed.

(** The lookup of the centre is the first thing either function does. *)
Lemma Γ1_index_error (r c : nat) (fWin : Dataset) (n : Z) :
  has_shape r c (xCoordinates fWin) ->
  norm_index n r = None \/ norm_index n c = None ->
  Γ1_moving_window_function fWin n = Raises IndexError.
Proof.
  intros Hx Hn. unfold Γ1_moving_window_function.
  now rewrite (getitem_shape_error r c _ n Hx Hn).
Qed.

Lemma Γ2_index_error (r c : nat) (fWin : Dataset) (n : Z) :
  has_shape r c (xCoordinates fWin) ->
  norm_index n r = None \/ norm_index n c = None ->
  Γ2_moving_window_function fWin n = Raises IndexError.
Proof.
  intros Hx Hn. unfold Γ2_moving_window_function.
  now rewrite (getitem_shape_error r c _ n Hx Hn).
Qed.

Lemma has_shape_map (f : float64 -> float64) (r c : nat) (a : ndarray) :
  has_shape r c a -> has_shape r c (map (map f) a).
Proof.
  intros H. rewrite (has_shape_tab _ _ _ H), map_map_tab.
  apply has_shape_tab_intro.
Qed.

Lemma cell_map (f : float64 -> float64) (r c : nat) (a : ndarray) (i j : nat) :
  has_shape r c a -> (i < r)%nat -> (j < c)%nat ->
  cell (map (map f) a) i j = f (cell a i j).
Proof.
  intros H Hi Hj. rewrite (has_shape_tab _ _ _ H) at 1.
  now rewrite map_map_tab, cell_tab.
Qed.



(** ** Facts about the scalar operations *)

Lemma Rzerob_true (r : R) : r = 0 -> Rzerob r = true.
Proof. intros H. unfold Rzerob. now destruct (Req_dec_T r 0). Qed.

Lemma Rzerob_false (r : R) : r <> 0 -> Rzerob r = false.
Proof. intros H. unfold Rzerob. now destruct (Req_dec_T r 0). Qed.

Lemma Rnegb_false (r : R) : 0 <= r -> Rnegb r = false.
Proof. intros H. unfold Rnegb. destruct (Rlt_dec r 0); [lra | reflexivity]. Qed.

Lemma Rnegb_true (r : R) : r < 0 -> Rnegb r = true.
Proof. intros H. unfold Rnegb. destruct (Rlt_dec r 0); [reflexivity | lra]. Qed.

Lemma sumsq_nonneg (a b : R) : 0 <= a * a + b * b.
Proof. nra. Qed.

Lemma norm_zero (a b : R) : Spec.norm a b = 0 -> a = 0 /\ b = 0.
Proof.
  unfold Spec.norm. intros H.
  apply sqrt_eq_0 in H; [|apply sumsq_nonneg]. split; nra.
Qed.


Lemma fsqrt_sumsq (a b : R) :
  fsqrt (fadd (fsquare (Fin a)) (fsquare (Fin b))) = Fin (Spec.norm a b).
Proof.
  simpl. now rewrite Rnegb_false by apply sumsq_nonneg.
Qed.

(** On finite inputs the cell of the code is the cell of the specification;
    a zero denominator always comes with a zero numerator, so the quotient
    is never infinite. *)
Lemma sinΘM_finite (xP yP x y u v : R) :
  sinΘM (Fin xP) (Fin yP) (Fin x) (Fin y) (Fin u) (Fin v)
  = of_option (Spec.sinθ_cell (Fin xP) (Fin yP) (Fin x) (Fin y) (Fin u) (Fin v)).
Proof.
  unfold sinΘM. cbn [fsub]. rewrite !fsqrt_sumsq. cbn [fmul fsub fdiv].
  unfold Spec.sinθ_cell, Spec.known, Spec.is_zero, Spec.sinθ.
  destruct (Req_dec_T (Spec.norm (x - xP) (y - yP)) 0) as [HPM|HPM].
  - apply norm_zero in HPM as HPM'. destruct HPM' as [Hx Hy].
    rewrite HPM, Hx, Hy. cbn [orb of_option].
    now rewrite !Rzerob_true by lra.
  - destruct (Req_dec_T (Spec.norm u v) 0) as [HU|HU]; cbn [orb of_option].
    + apply norm_zero in HU as HU'. destruct HU' as [Hu Hv].
      rewrite HU, Hu, Hv. now rewrite !Rzerob_true by lra.
    + now rewrite Rzerob_false by (apply Rmult_integral_contrapositive; auto).
Qed.

Lemma sinΘM_spec (xP yP x y u v : float64) :
  finite_or_nan xP -> finite_or_nan yP -> finite_or_nan x ->
  finite_or_nan y -> finite_or_nan u -> finite_or_nan v ->
  sinΘM xP yP x y u v = of_option (Spec.sinθ_cell xP yP x y u v).
Proof.
  intros HxP HyP Hx Hy Hu Hv.
  destruct xP as [| |xP]; try (exfalso; exact HxP);
  destruct yP as [| |yP]; try (exfalso; exact HyP);
  destruct x as [| |x]; try (exfalso; exact Hx);
  destruct y as [| |y]; try (exfalso; exact Hy);
  destruct u as [| |u]; try (exfalso; exact Hu);
  destruct v as [| |v]; try (exfalso; exact Hv);
  try apply sinΘM_finite;
  unfold sinΘM; cbn [fsub fmul fsquare fadd fsqrt fdiv];
  repeat match goal with
         | |- context [if ?b then _ else _] => destruct b
         end; reflexivity.
Qed.

(** ** The not-a-number-ignoring mean *)

Lemma sum_from_of_option (acc : R) (l : list (option R)) :
  fst (sum_from (Fin acc) (map replace_nan (map of_option l)))
  = Fin (acc + Spec.total (Spec.defined l)).
Proof.
  revert acc. induction l as [|[s|] l IH]; intros acc; simpl.
  - f_equal. lra.
  - destruct (sum_from _ _) as [tot raised] eqn:E. simpl.
    specialize (IH (acc + s)). rewrite E in IH. simpl in IH.
    rewrite IH. f_equal. unfold Spec.total. lra.
  - destruct (sum_from _ _) as [tot raised] eqn:E. simpl.
    specialize (IH (acc + 0)). rewrite E in IH. simpl in IH.
    rewrite IH. f_equal. lra.
Qed.

Lemma count_not_nan_of_option (l : list (option R)) :
  count_not_nan (map of_option l) = length (Spec.defined l).
Proof.
  unfold count_not_nan.
  induction l as [|[s|] l IH]; simpl; [reflexivity | now rewrite IH | exact IH].
Qed.

Lemma nanmean_value_of_option (l : list (option R)) :
  nanmean_value (map of_option l)
  = match Spec.defined l with
    | [] => NaN
    | vals => Fin (Spec.mean vals)
    end.
Proof.
  unfold nanmean_value.
  rewrite sum_from_of_option, count_not_nan_of_option.
  destruct (Spec.defined l) as [|s vals] eqn:E.
  - simpl. now rewrite !Rzerob_true by lra.
  - cbn [fdiv]. rewrite Rzerob_false.
    + unfold Spec.mean. f_equal. f_equal. lra.
    + apply not_0_INR. discriminate.
Qed.

Lemma fillna_nanmean_of_option (l : list (option R)) :
  fillna (nanmean_value (map of_option l)) (Fin 0) = Fin (Spec.Γ l).
Proof.
  rewrite nanmean_value_of_option. unfold Spec.Γ.
  now destruct (Spec.defined l).
Qed.

(** When every cell is not-a-number the mean is 0/0. *)
Lemma defined_all_None {I : Type} (l : list I) :
  Spec.defined (map (fun _ => None) l) = [].
Proof. induction l; simpl; auto. Qed.

Lemma nanmean_value_all_nan (l : list float64) :
  Forall (fun x => x = NaN) l -> nanmean_value l = NaN.
Proof.
  intros H.
  assert (E : l = map of_option (map (fun _ => None) l)).
  { induction H as [|x l Hx _ IH]; simpl; [reflexivity|]. now rewrite Hx, <- IH. }
  rewrite E, nanmean_value_of_option. now rewrite defined_all_None.
Qed.

Lemma count_not_nan_all_nan (l : list float64) :
  Forall (fun x => x = NaN) l -> count_not_nan l = 0%nat.
Proof.
  intros H. unfold count_not_nan.
  induction H as [|x l Hx _ IH]; simpl; [reflexivity|]. now rewrite Hx.
Qed.

(** ** The code's cells are the specification's cells *)

Lemma all_cells_cell (P : float64 -> Prop) (r c : nat) (a : ndarray) (i j : nat) :
  all_cells P a -> has_shape r c a -> (i < r)%nat -> (j < c)%nat ->
  P (cell a i j).
Proof.
  intros HP [Hr Hc] Hi Hj. unfold cell, all_cells in *.
  rewrite Forall_forall in HP, Hc.
  assert (Hrow : In (nth i a []) a) by (apply nth_In; lia).
  specialize (HP _ Hrow). rewrite Forall_forall in HP.
  apply HP, nth_In. rewrite (Hc _ Hrow). exact Hj.
Qed.

Lemma all_cells_concat (P : float64 -> Prop) (a : ndarray) :
  all_cells P a -> Forall P (concat a).
Proof.
  unfold all_cells. induction 1 as [|row a Hrow _ IH]; simpl.
  - constructor.
  - apply Forall_app. split; assumption.
Qed.


Lemma Γ1_cells_spec (r c : nat) (fWin : Dataset) (i j : nat) :
  window_shape r c fWin -> window_cells finite_or_nan fWin ->
  (i < r)%nat -> (j < c)%nat ->
  Γ1_cells r c fWin i j = map of_option (Spec.cells_Γ1 r c fWin i j).
Proof.
  intros (Sx & Sy & Su & Sv) (Fx & Fy & Fu & Fv) Hi Hj.
  unfold Γ1_cells, Spec.cells_Γ1. rewrite <- concat_map_tab.
  f_equal. apply tab_ext. intros i' j' Hi' Hj'.
  apply sinΘM_spec; eapply all_cells_cell; eassumption.
Qed.







Lemma rotation_window_shape : window_shape 3 3 rotation_window.
Proof. unfold window_shape, has_shape; simpl. repeat split; repeat constructor. Qed.

Lemma rotation_window_finite : window_cells finite rotation_window.
Proof. unfold window_cells, all_cells; simpl. repeat split; repeat constructor. Qed.

Lemma finite_finite_or_nan (x : float64) : finite x -> finite_or_nan x.
Proof. destruct x; simpl; auto. Qed.

Lemma all_cells_impl (P Q : float64 -> Prop) (a : ndarray) :
  (forall x, P x -> Q x) -> all_cells P a -> all_cells Q a.
Proof.
  intros H. unfold all_cells. apply Forall_impl. intros row. now apply Forall_impl.
Qed.

Lemma window_cells_impl (P Q : float64 -> Prop) (fWin : Dataset) :
  (forall x, P x -> Q x) -> window_cells P fWin -> window_cells Q fWin.
Proof.
  intros H (Hx & Hy & Hu & Hv). unfold window_cells.
  repeat split; eapply all_cells_impl; eassumption.
Qed.

(** Shapes and entries of a window given cell by cell. *)
Ltac concrete_shape :=
  unfold window_shape, has_shape; simpl; repeat split; repeat constructor.

Ltac concrete_cells :=
  unfold all_cells; simpl; repeat constructor.


(** ** Claims *)





Lemma sinΘM_quotient (xP yP x y u v : float64) :
  sinΘM xP yP x y u v = fdiv (cross_z xP yP x y u v) (PM_U xP yP x y u v).
Proof. reflexivity. Qed.

Ltac case_ifs :=
  repeat match goal with
         | |- context [if ?b then _ else _] => destruct b eqn:?
         | H : context [if ?b then _ else _] |- _ => destruct b eqn:?
         end.


Lemma Rzerob_neq (r : R) : Rzerob r = false -> r <> 0.
Proof. unfold Rzerob. now destruct (Req_dec_T r 0). Qed.

Lemma Rnegb_lt (r : R) : Rnegb r = true -> r < 0.
Proof. unfold Rnegb. now destruct (Rlt_dec r 0). Qed.

Lemma Rnegb_ge (r : R) : Rnegb r = false -> 0 <= r.
Proof. unfold Rnegb. destruct (Rlt_dec r 0); [discriminate | lra]. Qed.

(** The modulus the code computes is not-a-number, plus infinity or a finite
    number that is not negative. *)
Lemma modulus_cases (a b : float64) :
  let m := fsqrt (fadd (fsquare a) (fsquare b)) in
  m = NaN \/ m = Inf false \/
  exists p q, a = Fin p /\ b = Fin q /\ m = Fin (Spec.norm p q).
Proof.
  destruct a as [|[]|p], b as [|[]|q]; cbn; auto.
  right. right. exists p, q. now rewrite Rnegb_false by apply sumsq_nonneg.
Qed.

Lemma quotient_zero_denominator (PMx PMy u v : float64) :
  fmul (fsqrt (fadd (fsquare PMx) (fsquare PMy)))
       (fsqrt (fadd (fsquare u) (fsquare v))) = Fin 0 ->
  fdiv (fsub (fmul PMx v) (fmul PMy u))
       (fmul (fsqrt (fadd (fsquare PMx) (fsquare PMy)))
             (fsqrt (fadd (fsquare u) (fsquare v)))) = NaN.
Proof.
  destruct (modulus_cases PMx PMy) as [E1|[E1|(p & q & -> & -> & E1)]];
  destruct (modulus_cases u v) as [E2|[E2|(a & b & -> & -> & E2)]];
  rewrite E1, E2; cbn [fmul]; try discriminate;
  try (case_ifs; discriminate).
  intros [= H]. rewrite H. cbn [fmul fsub fdiv].
  rewrite (Rzerob_true 0) by reflexivity.
  apply Rmult_integral in H as [H|H]; apply norm_zero in H as [-> ->];
    match goal with
    | |- context [Rzerob ?r] => now rewrite (Rzerob_true r) by ring
    end.
Qed.


(** The centre cell is not-a-number whatever the window holds. *)
Lemma sinΘM_centre (xP yP u v : float64) : sinΘM xP yP xP yP u v = NaN.
Proof.
  unfold sinΘM.
  destruct xP as [|s|p]; [reflexivity | destruct s; reflexivity |].
  destruct yP as [|t|q];
    [ destruct v as [|[]|?]; cbn; case_ifs; reflexivity
    | destruct t, v as [|[]|?]; cbn; case_ifs; reflexivity |].
  cbn [fsub].
  destruct (modulus_cases u v) as [E2|[E2|(a & b & -> & -> & E2)]].
  - rewrite E2, fsqrt_sumsq. cbn. now destruct (fsub _ _).
  - rewrite E2, fsqrt_sumsq. cbn [fmul].
    replace (Spec.norm (p - p) (q - q)) with 0.
    + rewrite (Rzerob_true 0) by reflexivity. now destruct (fsub _ _).
    + unfold Spec.norm.
      replace ((p - p) * (p - p) + (q - q) * (q - q)) with 0 by ring.
      now rewrite sqrt_0.
  - apply quotient_zero_denominator.
    rewrite !fsqrt_sumsq. cbn [fmul]. f_equal.
    replace (Spec.norm (p - p) (q - q)) with 0; [ring|].
    unfold Spec.norm.
    replace ((p - p) * (p - p) + (q - q) * (q - q)) with 0 by ring.
    now rewrite sqrt_0.
Qed.

(** ** Reversing the velocity *)

Lemma Rzerob_opp (r : R) : Rzerob (- r) = Rzerob r.
Proof.
  unfold Rzerob. destruct (Req_dec_T (- r) 0), (Req_dec_T r 0); auto; lra.
Qed.

Lemma Rnegb_opp (r : R) : r <> 0 -> Rnegb (- r) = negb (Rnegb r).
Proof.
  intros H. unfold Rnegb. destruct (Rlt_dec (- r) 0), (Rlt_dec r 0); auto; lra.
Qed.

Lemma Fin_eq (a b : R) : a = b -> Fin a = Fin b.
Proof. now intros ->. Qed.

Lemma fmul_fneg_r (x y : float64) : fmul x (fneg y) = fneg (fmul x y).
Proof.
  destruct x as [|s|a], y as [|t|b]; cbn; try reflexivity.
  - now destruct s, t.
  - rewrite Rzerob_opp. destruct (Rzerob b) eqn:E; [reflexivity|].
    apply Rzerob_neq in E. rewrite Rnegb_opp by assumption.
    now destruct s, (Rnegb b).
  - destruct (Rzerob a); [reflexivity|]. now destruct (Rnegb a), t.
  - apply Fin_eq. ring.
Qed.

Lemma fsquare_fneg (x : float64) : fsquare (fneg x) = fsquare x.
Proof.
  destruct x as [|s|a]; cbn; try reflexivity.
  - now destruct s.
  - apply Fin_eq. ring.
Qed.

Lemma fsub_fneg (x y : float64) : fsub (fneg x) (fneg y) = fneg (fsub x y).
Proof.
  destruct x as [|s|a], y as [|t|b]; cbn; try reflexivity.
  - now destruct s, t.
  - apply Fin_eq. ring.
Qed.

Lemma fadd_fneg (x y : float64) : fadd (fneg x) (fneg y) = fneg (fadd x y).
Proof.
  destruct x as [|s|a], y as [|t|b]; cbn; try reflexivity.
  - now destruct s, t.
  - apply Fin_eq. ring.
Qed.

Lemma fdiv_fneg_l (x y : float64) : fdiv (fneg x) y = fneg (fdiv x y).
Proof.
  destruct x as [|s|a], y as [|t|b]; cbn; try reflexivity.
  - now destruct s, (Rnegb b).
  - apply Fin_eq. ring.
  - rewrite Rzerob_opp. destruct (Rzerob b) eqn:Eb.
    + destruct (Rzerob a) eqn:Ea; [reflexivity|].
      apply Rzerob_neq in Ea. now rewrite Rnegb_opp.
    + apply Rzerob_neq in Eb. apply Fin_eq. now field.
Qed.

Lemma sinΘM_fneg (xP yP x y u v : float64) :
  sinΘM xP yP x y (fneg u) (fneg v) = fneg (sinΘM xP yP x y u v).
Proof.
  unfold sinΘM. cbv zeta.
  now rewrite !fmul_fneg_r, fsub_fneg, !fsquare_fneg, fdiv_fneg_l.
Qed.

Lemma replace_nan_fneg (x : float64) :
  replace_nan (fneg x) = fneg (replace_nan x).
Proof. destruct x; cbn; try reflexivity. apply Fin_eq. ring. Qed.

Lemma sum_from_fneg (acc : float64) (l : list float64) :
  fst (sum_from (fneg acc) (map replace_nan (map fneg l)))
  = fneg (fst (sum_from acc (map replace_nan l))).
Proof.
  revert acc. induction l as [|x l IH]; intros acc; [reflexivity|].
  cbn [map sum_from].
  rewrite replace_nan_fneg, fadd_fneg.
  specialize (IH (fadd acc (replace_nan x))).
  destruct (sum_from (fneg _) _), (sum_from (fadd acc _) _). exact IH.
Qed.

Lemma count_not_nan_fneg (l : list float64) :
  count_not_nan (map fneg l) = count_not_nan l.
Proof.
  unfold count_not_nan. induction l as [|x l IH]; [reflexivity|].
  cbn [map filter]. destruct x; cbn; now rewrite ?IH.
Qed.

Lemma nanmean_value_fneg (l : list float64) :
  nanmean_value (map fneg l) = fneg (nanmean_value l).
Proof.
  unfold nanmean_value. rewrite count_not_nan_fneg, <- fdiv_fneg_l.
  rewrite <- sum_from_fneg. cbn [fneg]. now rewrite Ropp_0.
Qed.

Lemma fillna_fneg (x : float64) :
  fillna (fneg x) (Fin 0) = fneg (fillna x (Fin 0)).
Proof. destruct x; cbn; try reflexivity. apply Fin_eq. ring. Qed.

Lemma window_shape_reverse (r c : nat) (fWin : Dataset) :
  window_shape r c fWin -> window_shape r c (reverse_velocity fWin).
Proof.
  intros (Hx & Hy & Hu & Hv). unfold window_shape, reverse_velocity; simpl.
  auto using has_shape_map.
Qed.

Lemma Γ1_cells_reverse (r c : nat) (fWin : Dataset) (i j : nat) :
  window_shape r c fWin ->
  Γ1_cells r c (reverse_velocity fWin) i j = map fneg (Γ1_cells r c fWin i j).
Proof.
  intros (Hx & Hy & Hu & Hv). unfold Γ1_cells, reverse_velocity; simpl.
  rewrite <- concat_map_tab. f_equal. apply tab_ext. intros i' j' Hi' Hj'.
  rewrite !(cell_map _ r c) by assumption. apply sinΘM_fneg.
Qed.

Lemma Γ2_cells_reverse (r c : nat) (fWin : Dataset) (i j : nat) :
  window_shape r c fWin ->
  Γ2_cells r c (reverse_velocity fWin) i j = map fneg (Γ2_cells r c fWin i j).
Proof.
  intros (Hx & Hy & Hu & Hv). unfold Γ2_cells, reverse_velocity; simpl.
  rewrite <- concat_map_tab. f_equal. apply tab_ext. intros i' j' Hi' Hj'.
  rewrite !(cell_map _ r c) by assumption.
  rewrite <- !concat_map, !nanmean_value_fneg, !fsub_fneg.
  apply sinΘM_fneg.
Qed.

(** C7.  Reversing every velocity of a window, [(u, v)] to [(-u, -v)], with
    [x], [y] and [n] unchanged, negates what [Γ1_moving_window_function] and
    [Γ2_moving_window_function] return (and leaves an [IndexError] an
    [IndexError]). *)
Theorem reversing_velocity_negates_Gamma (r c : nat) (fWin : Dataset) (n : Z) :
  window_shape r c fWin ->
  result_of (Γ1_moving_window_function (reverse_velocity fWin) n)
  = map_result fneg (result_of (Γ1_moving_window_function fWin n))
  /\ result_of (Γ2_moving_window_function (reverse_velocity fWin) n)
     = map_result fneg (result_of (Γ2_moving_window_function fWin n)).
Proof.
  intros Hshape.
  pose proof (window_shape_reverse _ _ _ Hshape) as Hshape'.
  destruct (norm_index n r) as [i|] eqn:Ei;
    [destruct (norm_index n c) as [j|] eqn:Ej|].
  - rewrite (Γ1_on_window r c _ n i j Hshape' Ei Ej),
      (Γ1_on_window r c _ n i j Hshape Ei Ej),
      (Γ2_on_window r c _ n i j Hshape' Ei Ej),
      (Γ2_on_window r c _ n i j Hshape Ei Ej).
    cbn [result_of map_result].
    rewrite Γ1_cells_reverse, Γ2_cells_reverse by assumption.
    now rewrite !nanmean_value_fneg, !fillna_fneg.
  - rewrite !(Γ1_index_error r c), !(Γ2_index_error r c);
      solve [reflexivity | auto | apply Hshape | apply Hshape'].
  - rewrite !(Γ1_index_error r c), !(Γ2_index_error r c);
      solve [reflexivity | auto | apply Hshape | apply Hshape'].
Qed.

Lemma reversing_velocity_negates_Gamma_witness :
  window_shape 3 3 rotation_window /\
  result_of (Γ1_moving_window_function (reverse_velocity rotation_window) 1)
  = map_result fneg (result_of (Γ1_moving_window_function rotation_window 1)).
Proof.
  split; [concrete_shape|].
  apply (reversing_velocity_negates_Gamma 3 3 rotation_window 1).
  concrete_shape.
Defined.

(** ** Windows without a defined cell *)

Lemma Forall_concat_tab {A : Type} (P : A -> Prop) (r c : nat)
    (f : nat -> nat -> A) :
  (forall i j, (i < r)%nat -> (j < c)%nat -> P (f i j)) ->
  Forall P (concat (tab r c f)).
Proof.
  intros H. apply Forall_forall. intros x Hx.
  apply In_concat_tab in Hx as (i & j & Hi & Hj & ->). now apply H.
Qed.

Lemma fillna_nanmean_all_nan (l : list float64) :
  Forall (fun x => x = NaN) l -> fillna (nanmean_value l) (Fin 0) = Fin 0.
Proof. intros H. now rewrite nanmean_value_all_nan. Qed.

Lemma sinΘM_at_rest (xP yP x y : float64) (a b : R) :
  a = 0 -> b = 0 -> sinΘM xP yP x y (Fin a) (Fin b) = NaN.
Proof.
  intros -> ->. unfold sinΘM. cbv zeta.
  destruct (modulus_cases (fsub x xP) (fsub y yP))
    as [E1|[E1|(p & q & Ep & Eq & E1)]].
  - rewrite E1.
    generalize (fsub (fmul (fsub x xP) (Fin 0)) (fmul (fsub y yP) (Fin 0))).
    intros num. now destruct num.
  - rewrite E1, fsqrt_sumsq.
    generalize (fsub (fmul (fsub x xP) (Fin 0)) (fmul (fsub y yP) (Fin 0))).
    intros num. cbn [fmul].
    replace (Spec.norm 0 0) with 0.
    + rewrite (Rzerob_true 0) by reflexivity. now destruct num.
    + unfold Spec.norm. replace (0 * 0 + 0 * 0) with 0 by ring.
      now rewrite sqrt_0.
  - apply quotient_zero_denominator.
    rewrite E1, fsqrt_sumsq. cbn [fmul]. apply Fin_eq.
    replace (Spec.norm 0 0) with 0; [ring|].
    unfold Spec.norm. replace (0 * 0 + 0 * 0) with 0 by ring.
    now rewrite sqrt_0.
Qed.

Lemma sinΘM_masked (xP yP x y v : float64) : sinΘM xP yP x y NaN v = NaN.
Proof.
  unfold sinΘM. cbv zeta.
  destruct (fmul (fsub x xP) v), (fsub y yP); reflexivity.
Qed.

(** The mean of a window at rest is zero (or not-a-number on no cell). *)
Lemma sum_from_zeros (acc : R) (l : list float64) :
  Forall (fun x => x = Fin 0) l ->
  fst (sum_from (Fin acc) (map replace_nan l)) = Fin acc.
Proof.
  intros H. revert acc. induction H as [|x l Hx _ IH]; intros acc; [reflexivity|].
  subst x. cbn [map sum_from replace_nan isnan fadd].
  specialize (IH (acc + 0)). destruct (sum_from _ _). cbn [fst] in *.
  rewrite IH. apply Fin_eq. ring.
Qed.

Lemma nanmean_value_zeros (l : list float64) :
  Forall (fun x => x = Fin 0) l ->
  exists m, fsub (Fin 0) (nanmean_value l) = of_option m /\
            forall a, m = Some a -> a = 0.
Proof.
  intros H. unfold nanmean_value. rewrite sum_from_zeros by assumption.
  cbn [fdiv]. destruct (Rzerob (INR (count_not_nan l))) eqn:E.
  - rewrite (Rzerob_true 0) by reflexivity. exists None. split; [reflexivity|].
    discriminate.
  - exists (Some (0 - 0 / INR (count_not_nan l))). split; [reflexivity|].
    intros a [= <-]. apply Rzerob_neq in E. now field.
Qed.

Lemma sinΘM_masked_v (xP yP x y u : float64) : sinΘM xP yP x y u NaN = NaN.
Proof.
  unfold sinΘM. cbv zeta. destruct (fsub x xP); reflexivity.
Qed.

Lemma Γ1_cells_at_rest (r c : nat) (fWin : Dataset) (i j : nat) :
  window_shape r c fWin ->
  all_cells (fun x => x = Fin 0) (u fWin) ->
  all_cells (fun x => x = Fin 0) (v fWin) ->
  Forall (fun s => s = NaN) (Γ1_cells r c fWin i j).
Proof.
  intros (Sx & Sy & Su & Sv) Hu Hv. apply Forall_concat_tab. intros i' j' Hi' Hj'.
  rewrite (all_cells_cell _ r c _ i' j' Hu Su Hi' Hj').
  rewrite (all_cells_cell _ r c _ i' j' Hv Sv Hi' Hj').
  now apply sinΘM_at_rest.
Qed.

Lemma Γ2_cells_at_rest (r c : nat) (fWin : Dataset) (i j : nat) :
  window_shape r c fWin ->
  all_cells (fun x => x = Fin 0) (u fWin) ->
  all_cells (fun x => x = Fin 0) (v fWin) ->
  Forall (fun s => s = NaN) (Γ2_cells r c fWin i j).
Proof.
  intros (Sx & Sy & Su & Sv) Hu Hv. apply Forall_concat_tab. intros i' j' Hi' Hj'.
  rewrite (all_cells_cell _ r c _ i' j' Hu Su Hi' Hj').
  rewrite (all_cells_cell _ r c _ i' j' Hv Sv Hi' Hj').
  destruct (nanmean_value_zeros _ (all_cells_concat _ _ Hu)) as (mu & -> & Hmu).
  destruct (nanmean_value_zeros _ (all_cells_concat _ _ Hv)) as (mv & -> & Hmv).
  destruct mu as [a|]; [|apply sinΘM_masked].
  destruct mv as [b|]; [|apply sinΘM_masked_v].
  apply sinΘM_at_rest; auto.
Qed.

Lemma Γ1_cells_masked (r c : nat) (fWin : Dataset) (i j : nat) :
  window_shape r c fWin ->
  all_cells (fun x => x = NaN) (u fWin) ->
  Forall (fun s => s = NaN) (Γ1_cells r c fWin i j).
Proof.
  intros (Sx & Sy & Su & Sv) Hu. apply Forall_concat_tab. intros i' j' Hi' Hj'.
  rewrite (all_cells_cell _ r c _ i' j' Hu Su Hi' Hj').
  apply sinΘM_masked.
Qed.

Lemma Γ2_cells_masked (r c : nat) (fWin : Dataset) (i j : nat) :
  window_shape r c fWin ->
  all_cells (fun x => x = NaN) (u fWin) ->
  Forall (fun s => s = NaN) (Γ2_cells r c fWin i j).
Proof.
  intros (Sx & Sy & Su & Sv) Hu. apply Forall_concat_tab. intros i' j' Hi' Hj'.
  rewrite (all_cells_cell _ r c _ i' j' Hu Su Hi' Hj').
  apply sinΘM_masked.
Qed.

(** C3.  When no cell of the array handed to [np.nanmean] is defined, as
    when [u = v = 0] in every cell or when the velocity is masked in every
    cell, [Γ1_moving_window_function] and [Γ2_moving_window_function] return
    exactly 0.0, not not-a-number. *)
Theorem undefined_window_gives_zero (r c : nat) (fWin : Dataset) (n : Z)
    (i j : nat) :
  window_shape r c fWin ->
  norm_index n r = Some i -> norm_index n c = Some j ->
  (Forall (fun s => s = NaN) (Γ1_cells r c fWin i j) ->
   result_of (Γ1_moving_window_function fWin n) = inr (Fin 0))
  /\ (Forall (fun s => s = NaN) (Γ2_cells r c fWin i j) ->
      result_of (Γ2_moving_window_function fWin n) = inr (Fin 0))
  /\ (all_cells (fun x => x = Fin 0) (u fWin) ->
      all_cells (fun x => x = Fin 0) (v fWin) ->
      result_of (Γ1_moving_window_function fWin n) = inr (Fin 0) /\
      result_of (Γ2_moving_window_function fWin n) = inr (Fin 0))
  /\ (all_cells (fun x => x = NaN) (u fWin) ->
      result_of (Γ1_moving_window_function fWin n) = inr (Fin 0) /\
      result_of (Γ2_moving_window_function fWin n) = inr (Fin 0)).
Proof.
  intros Hshape Hi Hj.
  rewrite (Γ1_on_window r c _ n i j Hshape Hi Hj),
    (Γ2_on_window r c _ n i j Hshape Hi Hj).
  cbn [result_of].
  assert (G1 : Forall (fun s => s = NaN) (Γ1_cells r c fWin i j) ->
               @inr exn _ (fillna (nanmean_value (Γ1_cells r c fWin i j)) (Fin 0))
               = inr (Fin 0))
    by (intros H; now rewrite fillna_nanmean_all_nan).
  assert (G2 : Forall (fun s => s = NaN) (Γ2_cells r c fWin i j) ->
               @inr exn _ (fillna (nanmean_value (Γ2_cells r c fWin i j)) (Fin 0))
               = inr (Fin 0))
    by (intros H; now rewrite fillna_nanmean_all_nan).
  repeat split; auto using Γ1_cells_at_rest, Γ2_cells_at_rest,
    Γ1_cells_masked, Γ2_cells_masked.
Qed.

Lemma undefined_window_gives_zero_witness :
  window_shape 3 3 still_window /\
  norm_index 1 3 = Some 1%nat /\
  result_of (Γ1_moving_window_function still_window 1) = inr (Fin 0) /\
  result_of (Γ2_moving_window_function still_window 1) = inr (Fin 0).
Proof.
  split; [concrete_shape|]. split; [reflexivity|].
  refine (proj1 (proj2 (proj2
            (undefined_window_gives_zero 3 3 still_window 1 1 1 _ eq_refl eq_refl)))
            _ _);
    [concrete_shape | concrete_cells | concrete_cells].
Defined.

(** ** The range of Γ1 *)

Lemma norm_sqr (a b : R) : Spec.norm a b * Spec.norm a b = a * a + b * b.
Proof. unfold Spec.norm. apply sqrt_def, sumsq_nonneg. Qed.








(** ** Solid-body rotation *)

(** A cell whose velocity is [PM] turned by a quarter turn counterclockwise
    contributes exactly 1. *)
Lemma sinΘM_solid_rotation (xP yP x y u v : R) :
  u = - (y - yP) -> v = x - xP -> x - xP <> 0 \/ y - yP <> 0 ->
  sinΘM (Fin xP) (Fin yP) (Fin x) (Fin y) (Fin u) (Fin v) = Fin 1.
Proof.
  intros Hu Hv Hne. rewrite sinΘM_finite.
  unfold Spec.sinθ_cell, Spec.known, Spec.is_zero, Spec.sinθ. cbv zeta.
  set (a := x - xP) in *. set (b := y - yP) in *.
  assert (EU : Spec.norm u v = Spec.norm a b).
  { unfold Spec.norm. f_equal. subst u v. ring. }
  assert (HPM : Spec.norm a b <> 0).
  { intros H. apply norm_zero in H. destruct H, Hne; contradiction. }
  rewrite EU.
  destruct (Req_dec_T (Spec.norm a b) 0) as [H|_]; [contradiction|].
  cbn [orb of_option]. apply Fin_eq.
  rewrite norm_sqr. subst u v.
  assert (Hpos : a * a + b * b <> 0).
  { rewrite <- norm_sqr. now apply Rmult_integral_contrapositive. }
  field. exact Hpos.
Qed.

Lemma sinΘM_at_centre (xP yP x y : R) (u v : float64) :
  x = xP -> y = yP -> sinΘM (Fin xP) (Fin yP) (Fin x) (Fin y) u v = NaN.
Proof. intros -> ->. apply sinΘM_centre. Qed.

Lemma rotation_window_cells :
  Γ1_cells 3 3 rotation_window 1 1
  = map of_option
      [Some 1; Some 1; Some 1; Some 1; None; Some 1; Some 1; Some 1; Some 1].
Proof.
  unfold Γ1_cells, rotation_window, tab, cell; simpl.
  repeat match goal with
  | |- context [sinΘM (Fin ?xP) (Fin ?yP) (Fin ?x) (Fin ?y) (Fin ?u) (Fin ?v)] =>
      first [ rewrite (sinΘM_solid_rotation xP yP x y u v) by lra
            | rewrite (sinΘM_at_centre xP yP x y (Fin u) (Fin v)) by lra ]
  end.
  reflexivity.
Qed.

Lemma rotation_window_xy_cells :
  Γ1_cells 3 3 rotation_window_xy 1 1
  = map of_option
      [Some 1; Some 1; Some 1; Some 1; None; Some 1; Some 1; Some 1; Some 1].
Proof.
  unfold Γ1_cells, rotation_window_xy, tab, cell; simpl.
  repeat match goal with
  | |- context [sinΘM (Fin ?xP) (Fin ?yP) (Fin ?x) (Fin ?y) (Fin ?u) (Fin ?v)] =>
      first [ rewrite (sinΘM_solid_rotation xP yP x y u v) by lra
            | rewrite (sinΘM_at_centre xP yP x y (Fin u) (Fin v)) by lra ]
  end.
  reflexivity.
Qed.

Lemma of_option_inj (l l' : list (option R)) :
  map of_option l = map of_option l' -> l = l'.
Proof.
  revert l'. induction l as [|a l IH]; intros [|b l'] H; try discriminate;
    [reflexivity|].
  injection H as Hab Hl. f_equal; [|now apply IH].
  destruct a, b; try discriminate; [now injection Hab as -> | reflexivity].
Qed.

Lemma rotation_window_spec_cells :
  Spec.cells_Γ1 3 3 rotation_window 1 1
  = [Some 1; Some 1; Some 1; Some 1; None; Some 1; Some 1; Some 1; Some 1].
Proof.
  apply of_option_inj. rewrite <- rotation_window_cells.
  symmetry. apply Γ1_cells_spec;
    [ exact rotation_window_shape
    | exact (window_cells_impl _ _ _ finite_finite_or_nan rotation_window_finite)
    | lia | lia ].
Qed.

(** C8.  On the 3x3 window of the unit grid centred at (0,0) with the
    velocity in counterclockwise solid-body rotation ([u = -y], [v = x]),
    [Γ1_moving_window_function] with [n = 1] returns exactly 1.0, and no
    warning: the eight cells around the centre contribute 1 each, the centre
    is 0/0 and enters neither the sum nor the count. *)
Theorem Gamma1_of_solid_rotation :
  Γ1_moving_window_function rotation_window 1 = Returns (Fin 1) [] /\
  Γ1_moving_window_function rotation_window_xy 1 = Returns (Fin 1) [] /\
  Spec.cells_Γ1 3 3 rotation_window 1 1
  = [Some 1; Some 1; Some 1; Some 1; None; Some 1; Some 1; Some 1; Some 1].
Proof.
  assert (Sxy : window_shape 3 3 rotation_window_xy) by concrete_shape.
  rewrite (Γ1_on_window 3 3 rotation_window 1 1 1 rotation_window_shape
             eq_refl eq_refl).
  rewrite (Γ1_on_window 3 3 rotation_window_xy 1 1 1 Sxy eq_refl eq_refl).
  rewrite rotation_window_cells, rotation_window_xy_cells,
    fillna_nanmean_of_option.
  assert (E : Spec.Γ [Some 1; Some 1; Some 1; Some 1; None;
                      Some 1; Some 1; Some 1; Some 1] = 1)
    by (unfold Spec.Γ, Spec.mean, Spec.total; simpl; field).
  rewrite E. repeat split.
  apply rotation_window_spec_cells.
Qed.













(** ** Warnings *)






















(** ** The range of both reductions, whatever the window holds *)








(** ** Moving the origin of the coordinates *)







(** ** Uniform flow *)




(** ** A window whose mean velocity is null *)

Lemma fsub_zero_r (x : float64) (m : R) : m = 0 -> fsub x (Fin m) = x.
Proof. intros ->. destruct x; cbn; try reflexivity. apply Fin_eq. ring. Qed.

(** X4.  When the not-a-number-ignoring means of [u] and of [v] over the
    window are both zero, subtracting them changes nothing and
    [Γ2_moving_window_function] returns what [Γ1_moving_window_function]
    returns. *)
Theorem Gamma2_is_Gamma1_without_mean_flow (r c : nat) (fWin : Dataset)
    (n : Z) (mu mv : R) :
  window_shape r c fWin ->
  nanmean_value (concat (u fWin)) = Fin mu -> mu = 0 ->
  nanmean_value (concat (v fWin)) = Fin mv -> mv = 0 ->
  result_of (Γ2_moving_window_function fWin n)
  = result_of (Γ1_moving_window_function fWin n).
Proof.
  intros Hshape Eu Hu Ev Hv.
  destruct (norm_index n r) as [i|] eqn:Ei;
    [destruct (norm_index n c) as [j|] eqn:Ej|].
  - rewrite (Γ1_on_window r c _ n i j Hshape Ei Ej),
      (Γ2_on_window r c _ n i j Hshape Ei Ej).
    cbn [result_of]. do 3 f_equal.
    unfold Γ2_cells, Γ1_cells. rewrite Eu, Ev.
    f_equal. apply tab_ext. intros i' j' _ _.
    now rewrite !fsub_zero_r.
  - rewrite (Γ1_index_error r c), (Γ2_index_error r c);
      solve [reflexivity | auto | apply Hshape].
  - rewrite (Γ1_index_error r c), (Γ2_index_error r c);
      solve [reflexivity | auto | apply Hshape].
Qed.

Lemma rotation_window_mean_u :
  nanmean_value (concat (u rotation_window))
  = Fin ((1 + (1 + (1 + (0 + (0 + (0 + (-1 + (-1 + (-1 + 0))))))))) / INR 9).
Proof.
  change (concat (u rotation_window))
    with (map of_option [Some 1; Some 1; Some 1; Some 0; Some 0; Some 0;
                         Some (-1); Some (-1); Some (-1)]).
  now rewrite nanmean_value_of_option.
Defined.

Lemma rotation_window_mean_v :
  nanmean_value (concat (v rotation_window))
  = Fin ((-1 + (0 + (1 + (-1 + (0 + (1 + (-1 + (0 + (1 + 0))))))))) / INR 9).
Proof.
  change (concat (v rotation_window))
    with (map of_option [Some (-1); Some 0; Some 1; Some (-1); Some 0; Some 1;
                         Some (-1); Some 0; Some 1]).
  now rewrite nanmean_value_of_option.
Defined.

Lemma Gamma2_is_Gamma1_without_mean_flow_witness :
  window_shape 3 3 rotation_window /\
  result_of (Γ2_moving_window_function rotation_window 1)
  = result_of (Γ1_moving_window_function rotation_window 1).
Proof.
  split; [concrete_shape|].
  refine (Gamma2_is_Gamma1_without_mean_flow 3 3 rotation_window 1 _ _ _
            rotation_window_mean_u _ rotation_window_mean_v _);
    [concrete_shape | simpl; lra | simpl; lra].
Defined.

(** ** A masked centre, an empty window *)

Lemma sinΘM_nan_xP (yP x y u v : float64) : sinΘM NaN yP x y u v = NaN.
Proof. unfold sinΘM. now destruct x. Qed.

Lemma sinΘM_nan_yP (xP x y u v : float64) : sinΘM xP NaN x y u v = NaN.
Proof.
  unfold sinΘM. cbv zeta.
  replace (fsub y NaN) with NaN by now destruct y.
  cbn [fmul]. now destruct (fmul (fsub x xP) v).
Qed.

(** X5.  When the coordinate read at [[n,n]] is not-a-number (a masked
    centre), every [PM] is undefined: both functions return 0.0 whatever the
    rest of the window holds. *)
Theorem masked_centre_gives_zero (r c : nat) (fWin : Dataset) (n : Z)
    (i j : nat) :
  window_shape r c fWin ->
  norm_index n r = Some i -> norm_index n c = Some j ->
  cell (xCoordinates fWin) i j = NaN \/ cell (yCoordinates fWin) i j = NaN ->
  result_of (Γ1_moving_window_function fWin n) = inr (Fin 0) /\
  result_of (Γ2_moving_window_function fWin n) = inr (Fin 0).
Proof.
  intros Hshape Hi Hj HP.
  rewrite (Γ1_on_window r c _ n i j Hshape Hi Hj),
    (Γ2_on_window r c _ n i j Hshape Hi Hj).
  cbn [result_of].
  split; f_equal; apply fillna_nanmean_all_nan;
    apply Forall_concat_tab; intros i' j' _ _;
    destruct HP as [-> | ->]; solve [apply sinΘM_nan_xP | apply sinΘM_nan_yP].
Qed.


Lemma masked_centre_gives_zero_witness :
  window_shape 1 3 masked_centre_window /\
  norm_index 0 1 = Some 0%nat /\ norm_index 0 3 = Some 0%nat /\
  (cell (xCoordinates masked_centre_window) 0 0 = NaN \/
   cell (yCoordinates masked_centre_window) 0 0 = NaN) /\
  result_of (Γ1_moving_window_function masked_centre_window 0) = inr (Fin 0) /\
  result_of (Γ2_moving_window_function masked_centre_window 0) = inr (Fin 0).
Proof.
  split; [concrete_shape|]. split; [reflexivity|]. split; [reflexivity|].
  split; [left; reflexivity|].
  apply (masked_centre_gives_zero 1 3 masked_centre_window 0 0 0);
    [concrete_shape | reflexivity | reflexivity | left; reflexivity].
Defined.


(** ** Solid-body rotation on any grid *)









(** ** Uniform flow on a symmetric grid *)

















(** ** The warnings that reach the caller *)












(** ** Changing the unit of the velocity or of the coordinates *)

Section Scaling.
Variable k : R.
Hypothesis Hk : 0 < k.



























End Scaling.





(** ** Grids of different shapes *)

#[local] Transparent ufunc2 ufunc2_scalar.

Lemma broadcast_mismatch {A B C : Type} (f : A -> B -> C)
    (la : list A) (lb : list B) :
  ~ broadcastable (length la) (length lb) -> broadcast f la lb = None.
Proof.
  intros H. unfold broadcast, broadcastable in *.
  destruct (Nat.eqb (length la) (length lb)) eqn:E.
  - apply Nat.eqb_eq in E. tauto.
  - destruct la as [|a [|a' la]]; [| exfalso; cbn in H; tauto |];
      destruct lb as [|b [|b' lb]]; try reflexivity; exfalso; cbn in H; tauto.
Qed.

Lemma broadcast2d_mismatch {A B C : Type} (f : A -> B -> C)
    (r c r' c' : nat) (a : list (list A)) (b : list (list B)) :
  length a = r -> Forall (fun row => length row = c) a ->
  length b = r' -> Forall (fun row => length row = c') b ->
  ~ broadcastable r r' \/
  ((0 < r)%nat /\ (0 < r')%nat /\ ~ broadcastable c c') ->
  broadcast2d f a b = None.
Proof.
  intros Ha Hca Hb Hcb H. unfold broadcast2d.
  destruct H as [H | (Hr & Hr' & H)].
  - now rewrite broadcast_mismatch by now rewrite Ha, Hb.
  - destruct a as [|ra a]; [cbn in Ha; lia|].
    destruct b as [|rb b]; [cbn in Hb; lia|].
    assert (E : broadcast f ra rb = None).
    { apply broadcast_mismatch.
      inversion Hca; inversion Hcb; subst. congruence. }
    unfold broadcast at 1.
    destruct (Nat.eqb (length (ra :: a)) (length (rb :: b))).
    + cbn. now rewrite E.
    + destruct a as [|ra' a]; [cbn; now rewrite E|].
      destruct b as [|rb' b]; [cbn; now rewrite E | reflexivity].
Qed.

Lemma ufunc2_mismatch (st : errstate) (op : binop) (r c r' c' : nat)
    (a b : ndarray) :
  has_shape r c a -> has_shape r' c' b ->
  ~ broadcastable r r' \/
  ((0 < r)%nat /\ (0 < r')%nat /\ ~ broadcastable c c') ->
  ufunc2 st op a b = Raises ValueError.
Proof.
  intros [Ha Hca] [Hb Hcb] H. unfold ufunc2.
  now rewrite (broadcast2d_mismatch _ r c r' c').
Qed.

Lemma ufunc2_scalar_eq (st : errstate) (op : binop) (a : ndarray)
    (s : float64) :
  ufunc2_scalar st op a s
  = Returns (map (map (fun x => apply2 op x s)) a)
            (fp_warnings st (ufunc_name2 op)
               (concat (map (map (fun x => raised2 op x s)) a))).
Proof. reflexivity. Qed.

Lemma broadcast_single {A B C : Type} (f : A -> B -> C) (a : A) (lb : list B) :
  broadcast f [a] lb = Some (map (f a) lb).
Proof.
  unfold broadcast. destruct lb as [|b [|b' lb]]; reflexivity.
Qed.

Lemma broadcast2d_single {A B C : Type} (f : A -> B -> C) (a : A)
    (b : list (list B)) :
  broadcast2d f [[a]] b = Some (map (map (f a)) b).
Proof.
  unfold broadcast2d. rewrite broadcast_single.
  induction b as [|row b IH]; [reflexivity|].
  cbn [map sequence]. now rewrite broadcast_single, IH.
Qed.

Lemma map_map_map {A B C : Type} (g : B -> C) (f : A -> B) (l : list (list A)) :
  map (map g) (map (map f) l) = map (map (fun x => g (f x))) l.
Proof. rewrite map_map. apply map_ext. intros row. apply map_map. Qed.

Lemma ufunc2_single (st : errstate) (op : binop) (a : float64) (b : ndarray) :
  ufunc2 st op [[a]] b
  = Returns (map (map (apply2 op a)) b)
            (fp_warnings st (ufunc_name2 op)
               (concat (map (map (raised2 op a)) b))).
Proof.
  unfold ufunc2. rewrite broadcast2d_single. now rewrite !map_map_map.
Qed.

#[local] Opaque ufunc2 ufunc2_scalar.

Lemma ufunc2_single_tab (st : errstate) (op : binop) (r c : nat)
    (g h : nat -> nat -> float64) :
  ufunc2 st op (tab 1 1 g) (tab r c h)
  = Returns (tab r c (fun i j => apply2 op (g 0%nat 0%nat) (h i j)))
            (fp_warnings st (ufunc_name2 op)
               (concat (tab r c (fun i j => raised2 op (g 0%nat 0%nat) (h i j))))).
Proof.
  change (tab 1 1 g) with [[g 0%nat 0%nat]].
  rewrite ufunc2_single. now rewrite !map_map_tab.
Qed.

Ltac run_step_mixed :=
  first [ rewrite (getitem_tab _ _ _ _ _ _) by eassumption; unfold ret
        | rewrite ufunc2_scalar_tab
        | rewrite ufunc2_scalar_eq
        | rewrite ufunc2_tab
        | rewrite ufunc2_single_tab
        | rewrite ufunc1_tab
        | rewrite np_nanmean_eq
        | rewrite bind_Returns; cbv beta ].

(** X12.  Nothing checks that the four grids agree in shape.  When the
    shape of [v] does not broadcast against the shape of the coordinate
    grids, the error comes from inside the arithmetic: both functions raise
    the [ValueError] of the first [np.multiply], after the centre has been
    looked up. *)
Theorem mismatched_shapes_raise_ValueError (r c r' c' : nat) (fWin : Dataset)
    (n : Z) (i j : nat) :
  has_shape r c (xCoordinates fWin) ->
  has_shape r c (yCoordinates fWin) ->
  has_shape r' c' (v fWin) ->
  norm_index n r = Some i -> norm_index n c = Some j ->
  ~ broadcastable r r' \/ ((0 < r')%nat /\ ~ broadcastable c c') ->
  Γ1_moving_window_function fWin n = Raises ValueError /\
  Γ2_moving_window_function fWin n = Raises ValueError.
Proof.
  intros Hx Hy Hv Hi Hj Hmis.
  assert (Hr : (0 < r)%nat) by (apply norm_index_lt in Hi; lia).
  assert (Hmis' : ~ broadcastable r r' \/
                  ((0 < r)%nat /\ (0 < r')%nat /\ ~ broadcastable c c'))
    by tauto.
  unfold Γ1_moving_window_function, Γ2_moving_window_function.
  destruct fWin as [x y u0 v0]. cbn [xCoordinates yCoordinates u v] in *.
  rewrite (has_shape_tab _ _ _ Hx), (has_shape_tab _ _ _ Hy).
  unfold np_subtract_scalar, np_multiply.
  split.
  - repeat run_step_mixed.
    rewrite (ufunc2_mismatch _ _ r c r' c');
      [reflexivity | apply has_shape_tab_intro | assumption | assumption].
  - repeat run_step_mixed.
    rewrite (ufunc2_mismatch _ _ r c r' c');
      [reflexivity | apply has_shape_tab_intro
      | now apply has_shape_map | assumption].
Qed.

Lemma mismatched_shapes_raise_ValueError_witness :
  has_shape 2 2 (xCoordinates mismatched_window) /\
  has_shape 2 2 (yCoordinates mismatched_window) /\
  has_shape 3 2 (v mismatched_window) /\
  norm_index 0 2 = Some 0%nat /\
  ~ broadcastable 2 3 /\
  Γ1_moving_window_function mismatched_window 0 = Raises ValueError /\
  Γ2_moving_window_function mismatched_window 0 = Raises ValueError.
Proof.
  assert (H : ~ broadcastable 2 3) by (unfold broadcastable; lia).
  split; [split; [reflexivity | repeat constructor]|].
  split; [split; [reflexivity | repeat constructor]|].
  split; [split; [reflexivity | repeat constructor]|].
  split; [reflexivity|]. split; [exact H|].
  apply (mismatched_shapes_raise_ValueError 2 2 3 2 mismatched_window 0 0 0);
    [ split; [reflexivity | repeat constructor]
    | split; [reflexivity | repeat constructor]
    | split; [reflexivity | repeat constructor]
    | reflexivity | reflexivity | left; exact H ].
Defined.

(** X13.  A mismatch that broadcasts is accepted in silence: with
    coordinate grids of a single cell and velocity grids of any shape, every
    cell of the velocity grids is paired with the one point, every [PM] is
    null and both functions return 0.0 instead of failing. *)
Theorem single_cell_coordinates_are_broadcast (r c : nat) (fWin : Dataset)
    (n : Z) (x0 y0 : float64) :
  xCoordinates fWin = [[x0]] -> yCoordinates fWin = [[y0]] ->
  has_shape r c (u fWin) -> has_shape r c (v fWin) ->
  norm_index n 1 = Some 0%nat ->
  result_of (Γ1_moving_window_function fWin n) = inr (Fin 0) /\
  result_of (Γ2_moving_window_function fWin n) = inr (Fin 0).
Proof.
  intros Hx Hy Hu Hv Hn.
  unfold Γ1_moving_window_function, Γ2_moving_window_function.
  destruct fWin as [x y u0 v0]. cbn [xCoordinates yCoordinates u v] in *.
  subst x y.
  change [[x0]] with (tab 1 1 (fun _ _ : nat => x0)).
  change [[y0]] with (tab 1 1 (fun _ _ : nat => y0)).
  unfold np_subtract_scalar, np_multiply, np_subtract, np_square, np_add,
    np_sqrt, np_divide.
  split.
  - as_tables. repeat run_step_mixed.
    unfold ret. rewrite !after_warnings_Returns. cbn [result_of]. f_equal.
    apply fillna_nanmean_all_nan, Forall_concat_tab. intros i' j' _ _.
    exact (sinΘM_centre x0 y0 _ _).
  - rewrite (has_shape_tab _ _ _ Hu), (has_shape_tab _ _ _ Hv).
    repeat (run_step_mixed; rewrite ?map_map_tab).
    unfold ret. rewrite !after_warnings_Returns. cbn [result_of]. f_equal.
    apply fillna_nanmean_all_nan, Forall_concat_tab. intros i' j' _ _.
    exact (sinΘM_centre x0 y0 _ _).
Qed.

Lemma single_cell_coordinates_are_broadcast_witness :
  xCoordinates stretched_window = [[Fin 5]] /\
  yCoordinates stretched_window = [[Fin 7]] /\
  has_shape 2 2 (u stretched_window) /\ has_shape 2 2 (v stretched_window) /\
  norm_index 0 1 = Some 0%nat /\
  result_of (Γ1_moving_window_function stretched_window 0) = inr (Fin 0) /\
  result_of (Γ2_moving_window_function stretched_window 0) = inr (Fin 0).
Proof.
  split; [reflexivity|]. split; [reflexivity|].
  split; [split; [reflexivity | repeat constructor]|].
  split; [split; [reflexivity | repeat constructor]|].
  split; [reflexivity|].
  apply (single_cell_coordinates_are_broadcast 2 2 stretched_window 0
           (Fin 5) (Fin 7));
    [ reflexivity | reflexivity
    | split; [reflexivity | repeat constructor]
    | split; [reflexivity | repeat constructor]
    | reflexivity ].
Defined.

(** ** graphics.py: the units of [quiver] *)

Example slash_is_the_slash : String slash EmptyString = "/"%string.
Proof. reflexivity. Qed.

Example split_mm_per_s :
  split_on slash "mm/s"%string = ["mm"%string; "s"%string].
Proof. reflexivity. Qed.

Lemma split_on_no_sep (sep : Ascii.ascii) (s : string) :
  has_char sep s = false -> split_on sep s = [s].
Proof.
  induction s as [|ch s IH]; [reflexivity|].
  cbn. destruct (Ascii.eqb ch sep); [discriminate|].
  cbn. intros H. now rewrite IH.
Qed.

Lemma split_on_first (sep : Ascii.ascii) (s : string) :
  has_char sep s = true ->
  exists a b, s = (a ++ String sep b)%string /\ has_char sep a = false /\
              split_on sep s = a :: split_on sep b.
Proof.
  induction s as [|ch s IH]; [discriminate|].
  cbn. destruct (Ascii.eqb ch sep) eqn:E.
  - intros _. apply Ascii.eqb_eq in E. subst ch.
    exists EmptyString, s. auto.
  - cbn. intros H. destruct (IH H) as (a & b & -> & Ha & Hs).
    exists (String ch a), b. cbn. rewrite E, Hs. auto.
Qed.

Lemma split_on_head (sep : Ascii.ascii) (s : string) :
  exists t pieces rest,
    split_on sep s = t :: pieces /\ has_char sep t = false /\
    s = (t ++ rest)%string /\
    (rest = EmptyString \/ exists rest', rest = String sep rest').
Proof.
  destruct (has_char sep s) eqn:E.
  - destruct (split_on_first sep s E) as (a & b & -> & Ha & Hs).
    exists a, (split_on sep b), (String sep b). eauto 6.
  - exists s, [], EmptyString. rewrite split_on_no_sep by assumption.
    repeat split; auto.
    clear E. induction s as [|ch s IH]; cbn; [reflexivity | now rewrite <- IH].
Qed.

(** X14.  The unit handling at the head of [quiver] (graphics.py): with
    [units] given it fails with [IndexError] exactly when the list has fewer
    than three entries or its third entry, the unit of velocity, holds no
    ["/"]; otherwise the unit of length is the first entry and the unit of
    time is the part of the unit of velocity between its first ["/"] and the
    next one, if any. *)
Theorem quiver_units_spec (units : list string) :
  match quiver_units (Some units) with
  | Raises e =>
      e = IndexError /\
      ((length units < 3)%nat \/
       exists velUnits, nth_error units 2 = Some velUnits /\
                        has_char slash velUnits = false)
  | Returns (lUnits, velUnits, tUnits) ws =>
      ws = [] /\
      nth_error units 0 = Some lUnits /\ nth_error units 2 = Some velUnits /\
      has_char slash tUnits = false /\
      exists a rest,
        velUnits = (a ++ String slash (tUnits ++ rest))%string /\
        has_char slash a = false /\
        (rest = EmptyString \/ exists rest', rest = String slash rest')
  end.
Proof.
  unfold quiver_units, list_getitem.
  destruct (nth_error units 0) as [lUnits|] eqn:E0;
    [|apply nth_error_None in E0; split; [reflexivity | left; lia]].
  destruct (nth_error units 2) as [velUnits|] eqn:E2;
    [|apply nth_error_None in E2; split; [reflexivity | left; lia]].
  cbn [bind ret after_warnings].
  destruct (has_char slash velUnits) eqn:Eh.
  - destruct (split_on_first slash velUnits Eh) as (a & b & -> & Ha & Hs).
    rewrite Hs.
    destruct (split_on_head slash b) as (t & pieces & rest & Hb & Ht & -> & Hrest).
    rewrite Hb. cbn. repeat split; auto. exists a, rest. auto.
  - rewrite split_on_no_sep by assumption. cbn.
    split; [reflexivity | right; eauto].
Qed.

(** ** Changes of frame *)

Lemma fmul_fneg_l (x y : float64) : fmul (fneg x) y = fneg (fmul x y).
Proof.
  destruct x as [|s|a], y as [|t|b]; cbn; try reflexivity.
  - now destruct s, t.
  - destruct (Rzerob b); [reflexivity|]. now destruct s, (Rnegb b).
  - rewrite Rzerob_opp. destruct (Rzerob a) eqn:E; [reflexivity|].
    apply Rzerob_neq in E. rewrite Rnegb_opp by assumption.
    now destruct (Rnegb a), t.
  - apply Fin_eq. ring.
Qed.

Lemma fneg_fsub_swap (x y : float64) : fneg (fsub x y) = fsub y x.
Proof.
  destruct x as [|[]|a], y as [|[]|b]; cbn; try reflexivity.
  apply Fin_eq. ring.
Qed.

Lemma fadd_comm (x y : float64) : fadd x y = fadd y x.
Proof.
  destruct x as [|s|a], y as [|t|b]; cbn; try reflexivity.
  - now destruct s, t.
  - apply Fin_eq. ring.
Qed.

Lemma sinΘM_mirror (xP yP x y u v : float64) :
  sinΘM (fneg xP) yP (fneg x) y (fneg u) v = fneg (sinΘM xP yP x y u v).
Proof.
  unfold sinΘM. cbv zeta.
  now rewrite fsub_fneg, fmul_fneg_l, fmul_fneg_r, fsub_fneg, !fsquare_fneg,
    fdiv_fneg_l.
Qed.

Lemma sinΘM_quarter_turn (xP yP x y u v : float64) :
  sinΘM (fneg yP) xP (fneg y) x (fneg v) u = sinΘM xP yP x y u v.
Proof.
  unfold sinΘM. cbv zeta.
  rewrite fsub_fneg, fmul_fneg_l, fmul_fneg_r, fsub_fneg, !fsquare_fneg.
  rewrite fneg_fsub_swap.
  now rewrite (fadd_comm (fsquare (fsub y yP))), (fadd_comm (fsquare v)).
Qed.

Lemma window_shape_mirror (r c : nat) (fWin : Dataset) :
  window_shape r c fWin -> window_shape r c (mirror fWin).
Proof.
  intros (Hx & Hy & Hu & Hv). unfold window_shape, mirror; simpl.
  auto using has_shape_map.
Qed.

Lemma window_shape_quarter_turn (r c : nat) (fWin : Dataset) :
  window_shape r c fWin -> window_shape r c (quarter_turn fWin).
Proof.
  intros (Hx & Hy & Hu & Hv). unfold window_shape, quarter_turn; simpl.
  auto using has_shape_map.
Qed.

Lemma Γ1_cells_mirror (r c : nat) (fWin : Dataset) (i j : nat) :
  window_shape r c fWin -> (i < r)%nat -> (j < c)%nat ->
  Γ1_cells r c (mirror fWin) i j = map fneg (Γ1_cells r c fWin i j).
Proof.
  intros (Hx & Hy & Hu & Hv) Hi Hj. unfold Γ1_cells, mirror; simpl.
  rewrite <- concat_map_tab. f_equal. apply tab_ext. intros i' j' Hi' Hj'.
  rewrite !(cell_map _ r c) by assumption. apply sinΘM_mirror.
Qed.

Lemma Γ2_cells_mirror (r c : nat) (fWin : Dataset) (i j : nat) :
  window_shape r c fWin -> (i < r)%nat -> (j < c)%nat ->
  Γ2_cells r c (mirror fWin) i j = map fneg (Γ2_cells r c fWin i j).
Proof.
  intros (Hx & Hy & Hu & Hv) Hi Hj. unfold Γ2_cells, mirror; simpl.
  rewrite <- concat_map_tab. f_equal. apply tab_ext. intros i' j' Hi' Hj'.
  rewrite !(cell_map _ r c) by assumption.
  rewrite <- concat_map, nanmean_value_fneg, fsub_fneg.
  apply sinΘM_mirror.
Qed.

Lemma Γ1_cells_quarter_turn (r c : nat) (fWin : Dataset) (i j : nat) :
  window_shape r c fWin -> (i < r)%nat -> (j < c)%nat ->
  Γ1_cells r c (quarter_turn fWin) i j = Γ1_cells r c fWin i j.
Proof.
  intros (Hx & Hy & Hu & Hv) Hi Hj. unfold Γ1_cells, quarter_turn; simpl.
  f_equal. apply tab_ext. intros i' j' Hi' Hj'.
  rewrite !(cell_map _ r c) by assumption. apply sinΘM_quarter_turn.
Qed.

Lemma Γ2_cells_quarter_turn (r c : nat) (fWin : Dataset) (i j : nat) :
  window_shape r c fWin -> (i < r)%nat -> (j < c)%nat ->
  Γ2_cells r c (quarter_turn fWin) i j = Γ2_cells r c fWin i j.
Proof.
  intros (Hx & Hy & Hu & Hv) Hi Hj. unfold Γ2_cells, quarter_turn; simpl.
  f_equal. apply tab_ext. intros i' j' Hi' Hj'.
  rewrite !(cell_map _ r c) by assumption.
  rewrite <- concat_map, nanmean_value_fneg, fsub_fneg.
  apply sinΘM_quarter_turn.
Qed.

(** X15.  A vortex seen in a mirror turns the other way: reflecting the
    window, [x] to [-x] and [u] to [-u] in every cell, negates what
    [Γ1_moving_window_function] and [Γ2_moving_window_function] return. *)
Theorem mirror_negates_Gamma (r c : nat) (fWin : Dataset) (n : Z) :
  window_shape r c fWin ->
  result_of (Γ1_moving_window_function (mirror fWin) n)
  = map_result fneg (result_of (Γ1_moving_window_function fWin n))
  /\ result_of (Γ2_moving_window_function (mirror fWin) n)
     = map_result fneg (result_of (Γ2_moving_window_function fWin n)).
Proof.
  intros Hshape.
  pose proof (window_shape_mirror _ _ _ Hshape) as Hshape'.
  destruct (norm_index n r) as [i|] eqn:Ei;
    [destruct (norm_index n c) as [j|] eqn:Ej|].
  - rewrite (Γ1_on_window r c _ n i j Hshape' Ei Ej),
      (Γ1_on_window r c _ n i j Hshape Ei Ej),
      (Γ2_on_window r c _ n i j Hshape' Ei Ej),
      (Γ2_on_window r c _ n i j Hshape Ei Ej).
    cbn [result_of map_result].
    rewrite Γ1_cells_mirror, Γ2_cells_mirror by eauto using norm_index_lt.
    now rewrite !nanmean_value_fneg, !fillna_fneg.
  - assert (Hx' : has_shape r c (xCoordinates (mirror fWin))) by apply Hshape'.
    rewrite !(Γ1_index_error r c), !(Γ2_index_error r c);
      solve [split; reflexivity | auto | apply Hshape].
  - assert (Hx' : has_shape r c (xCoordinates (mirror fWin))) by apply Hshape'.
    rewrite !(Γ1_index_error r c), !(Γ2_index_error r c);
      solve [split; reflexivity | auto | apply Hshape].
Qed.

Lemma mirror_negates_Gamma_witness :
  window_shape 3 3 rotation_window /\
  result_of (Γ1_moving_window_function (mirror rotation_window) 1)
  = map_result fneg (result_of (Γ1_moving_window_function rotation_window 1)).
Proof.
  split; [concrete_shape|].
  apply (mirror_negates_Gamma 3 3 rotation_window 1). concrete_shape.
Defined.

(** X16.  Turning the axes by a quarter turn, the point [(x, y)] read as
    [(-y, x)] and the velocity [(u, v)] as [(-v, u)], changes neither
    result: the sense of rotation does not depend on which axis is called
    [x]. *)
Theorem quarter_turn_keeps_Gamma (r c : nat) (fWin : Dataset) (n : Z) :
  window_shape r c fWin ->
  result_of (Γ1_moving_window_function (quarter_turn fWin) n)
  = result_of (Γ1_moving_window_function fWin n)
  /\ result_of (Γ2_moving_window_function (quarter_turn fWin) n)
     = result_of (Γ2_moving_window_function fWin n).
Proof.
  intros Hshape.
  pose proof (window_shape_quarter_turn _ _ _ Hshape) as Hshape'.
  destruct (norm_index n r) as [i|] eqn:Ei;
    [destruct (norm_index n c) as [j|] eqn:Ej|].
  - rewrite (Γ1_on_window r c _ n i j Hshape' Ei Ej),
      (Γ1_on_window r c _ n i j Hshape Ei Ej),
      (Γ2_on_window r c _ n i j Hshape' Ei Ej),
      (Γ2_on_window r c _ n i j Hshape Ei Ej).
    cbn [result_of].
    rewrite Γ1_cells_quarter_turn, Γ2_cells_quarter_turn
      by eauto using norm_index_lt.
    split; reflexivity.
  - assert (Hx' : has_shape r c (xCoordinates (quarter_turn fWin)))
      by apply Hshape'.
    rewrite !(Γ1_index_error r c), !(Γ2_index_error r c);
      solve [split; reflexivity | auto | apply Hshape].
  - assert (Hx' : has_shape r c (xCoordinates (quarter_turn fWin)))
      by apply Hshape'.
    rewrite !(Γ1_index_error r c), !(Γ2_index_error r c);
      solve [split; reflexivity | auto | apply Hshape].
Qed.

Lemma quarter_turn_keeps_Gamma_witness :
  window_shape 3 3 rotation_window /\
  result_of (Γ1_moving_window_function (quarter_turn rotation_window) 1)
  = result_of (Γ1_moving_window_function rotation_window 1).
Proof.
  split; [concrete_shape|].
  apply (quarter_turn_keeps_Gamma 3 3 rotation_window 1). concrete_shape.
Defined.

(** ** The order of the cells *)















(** X18.  A window of a single cell holds nothing but its centre: for
    [n = 0] (and [n = -1]) both functions return 0.0 whatever the cell
    holds. *)
Theorem single_cell_window_gives_zero (fWin : Dataset) (n : Z) :
  window_shape 1 1 fWin ->
  norm_index n 1 = Some 0%nat ->
  result_of (Γ1_moving_window_function fWin n) = inr (Fin 0) /\
  result_of (Γ2_moving_window_function fWin n) = inr (Fin 0).
Proof.
  intros Hshape Hn.
  rewrite (Γ1_on_window 1 1 _ n 0 0 Hshape Hn Hn),
    (Γ2_on_window 1 1 _ n 0 0 Hshape Hn Hn).
  cbn [result_of].
  split; f_equal; apply fillna_nanmean_all_nan;
    apply Forall_concat_tab; intros i' j' Hi' Hj';
    replace i' with 0%nat by lia; replace j' with 0%nat by lia;
    apply sinΘM_centre.
Qed.

Lemma single_cell_window_gives_zero_witness :
  window_shape 1 1 single_cell_window /\
  norm_index (-1) 1 = Some 0%nat /\
  result_of (Γ1_moving_window_function single_cell_window (-1)) = inr (Fin 0) /\
  result_of (Γ2_moving_window_function single_cell_window (-1)) = inr (Fin 0).
Proof.
  split; [concrete_shape|]. split; [reflexivity|].
  apply (single_cell_window_gives_zero single_cell_window (-1));
    [concrete_shape | reflexivity].
Defined.
